(** * imaging: Crop, Paste and Overlay on NRGBA buffers (tools.go)

    A shallow embedding of [tools.go] and of the parts of Go's [image] and
    [math] packages it calls, followed by the properties of the
    compositing functions.

    - Go's [int] is a 64-bit two's-complement integer: it is a [Z] and every
      arithmetic operation wraps ([wrap]).
    - Go's [float64] is IEEE 754 binary64: it is a [spec_float] and every
      operation is the correctly rounded one of [SpecFloat] at precision 53,
      each rounded on its own (no fused multiply-add, as the gc compiler
      does on amd64).
    - Go's [uint8] is a [byte]; a pixel buffer is a [list byte].
    - An index or a slice expression that is out of range panics: the
      functions that index return [option], [None] being the panic. *)

From Stdlib Require Import ZArith Lia Bool.
From Stdlib Require Import Floats.SpecFloat.
From Stdlib Require Import Strings.Byte.
From stdpp Require Import base tactics option list list_numbers.

Local Open Scope Z_scope.

(** ** Go's [int] *)

Module GoInt.

Definition min_int : Z := - 2 ^ 63.
Definition max_int : Z := 2 ^ 63 - 1.

Definition in_range (z : Z) : Prop := min_int <= z <= max_int.

(** Two's-complement wrap-around of an exact result. *)
Definition wrap (z : Z) : Z := (z + 2 ^ 63) mod 2 ^ 64 - 2 ^ 63.

Definition add (a b : Z) : Z := wrap (a + b).
Definition sub (a b : Z) : Z := wrap (a - b).
Definition mul (a b : Z) : Z := wrap (a * b).
(** [a / b] truncates toward zero. *)
Definition quo (a b : Z) : Z := wrap (Z.quot a b).

End GoInt.

Declare Scope goint_scope.
Delimit Scope goint_scope with goint.
Infix "+i" := GoInt.add (at level 50, left associativity) : goint_scope.
Infix "-i" := GoInt.sub (at level 50, left associativity) : goint_scope.
Infix "*i" := GoInt.mul (at level 40, left associativity) : goint_scope.
Infix "/i" := GoInt.quo (at level 40, left associativity) : goint_scope.
Local Open Scope goint_scope.

(** ** Go's [image.Point] and [image.Rectangle] *)

Module image.

Record Point := { X : Z; Y : Z }.
Record Rectangle := { Min : Point; Max : Point }.

(** [image.Pt] *)
Definition Pt (x y : Z) : Point := {| X := x; Y := y |}.

(** [image.ZR], the zero rectangle. *)
Definition ZR : Rectangle := {| Min := Pt 0 0; Max := Pt 0 0 |}.

(** [image.Rect]: swaps the coordinates where needed so that the result
    is well-formed. *)
Definition Rect (x0 y0 x1 y1 : Z) : Rectangle :=
  let '(x0, x1) := if x1 <? x0 then (x1, x0) else (x0, x1) in
  let '(y0, y1) := if y1 <? y0 then (y1, y0) else (y0, y1) in
  {| Min := Pt x0 y0; Max := Pt x1 y1 |}.

(** [Point.Add], [Point.Sub] *)
Definition PAdd (p q : Point) : Point := Pt (X p +i X q) (Y p +i Y q).
Definition PSub (p q : Point) : Point := Pt (X p -i X q) (Y p -i Y q).

(** [Rectangle.Dx], [Rectangle.Dy], [Rectangle.Size] *)
Definition Dx (r : Rectangle) : Z := X (Max r) -i X (Min r).
Definition Dy (r : Rectangle) : Z := Y (Max r) -i Y (Min r).
Definition Size (r : Rectangle) : Point := Pt (Dx r) (Dy r).

(** [Rectangle.Sub]: the rectangle translated by [-p]. *)
Definition RSub (r : Rectangle) (p : Point) : Rectangle :=
  {| Min := PSub (Min r) p; Max := PSub (Max r) p |}.

(** [Rectangle.Empty] *)
Definition Empty (r : Rectangle) : bool :=
  (X (Max r) <=? X (Min r)) || (Y (Max r) <=? Y (Min r)).

(** [Rectangle.Overlaps] *)
Definition Overlaps (r s : Rectangle) : bool :=
  negb (Empty r) && negb (Empty s) &&
  (X (Min r) <? X (Max s)) && (X (Min s) <? X (Max r)) &&
  (Y (Min r) <? Y (Max s)) && (Y (Min s) <? Y (Max r)).

(** [Rectangle.Intersect]: the largest rectangle contained in both, the
    zero rectangle when they do not overlap. *)
Definition Intersect (r s : Rectangle) : Rectangle :=
  let minx := if X (Min r) <? X (Min s) then X (Min s) else X (Min r) in
  let miny := if Y (Min r) <? Y (Min s) then Y (Min s) else Y (Min r) in
  let maxx := if X (Max s) <? X (Max r) then X (Max s) else X (Max r) in
  let maxy := if Y (Max s) <? Y (Max r) then Y (Max s) else Y (Max r) in
  let r' := {| Min := Pt minx miny; Max := Pt maxx maxy |} in
  if Empty r' then ZR else r'.

(** [Point.In] *)
Definition PIn (p : Point) (r : Rectangle) : bool :=
  (X (Min r) <=? X p) && (X p <? X (Max r)) &&
  (Y (Min r) <=? Y p) && (Y p <? Y (Max r)).

End image.

Import image.

(** ** Go's [float64] and [math.Min], [math.Max] *)

Module F64.

Definition prec : Z := 53.
Definition emax : Z := 1024.

Definition float64 : Type := spec_float.

Definition add : float64 -> float64 -> float64 := SFadd prec emax.
Definition sub : float64 -> float64 -> float64 := SFsub prec emax.
Definition mul : float64 -> float64 -> float64 := SFmul prec emax.
Definition div : float64 -> float64 -> float64 := SFdiv prec emax.

Definition ltb : float64 -> float64 -> bool := SFltb.
Definition eqb : float64 -> float64 -> bool := SFeqb.
Definition leb : float64 -> float64 -> bool := SFleb.

(** An integer constant or an integer converted to [float64]. *)
Definition of_Z (z : Z) : float64 := binary_normalize prec emax z 0 false.


Definition is_nan (f : float64) : bool :=
  match f with S754_nan => true | _ => false end.

Definition is_inf (f : float64) (sign : bool) : bool :=
  match f with S754_infinity s => Bool.eqb s sign | _ => false end.

Definition signbit (f : float64) : bool :=
  match f with
  | S754_zero s | S754_infinity s | S754_finite s _ _ => s
  | S754_nan => false
  end.

(** [math.Max] with its special cases: [Max(x, +Inf) = +Inf],
    [Max(x, NaN) = NaN], [Max(+0, -0) = +0]. *)
Definition Max (x y : float64) : float64 :=
  if is_inf x false || is_inf y false then S754_infinity false
  else if is_nan x || is_nan y then S754_nan
  else if eqb x (S754_zero false) && eqb x y then
    (if signbit x then y else x)
  else if ltb y x then x else y.

(** [math.Min] with its special cases: [Min(x, -Inf) = -Inf],
    [Min(x, NaN) = NaN], [Min(-0, +0) = -0]. *)
Definition Min (x y : float64) : float64 :=
  if is_inf x true || is_inf y true then S754_infinity true
  else if is_nan x || is_nan y then S754_nan
  else if eqb x (S754_zero false) && eqb x y then
    (if signbit x then x else y)
  else if ltb x y then x else y.

(** The integer part of a finite value (the fraction is discarded);
    [None] for a NaN or an infinity. *)
Definition trunc (f : float64) : option Z :=
  match f with
  | S754_zero _ => Some 0
  | S754_finite s m e =>
      let a := if 0 <=? e then Z.pos m * 2 ^ e else Z.pos m / 2 ^ (- e) in
      Some (if s then - a else a)
  | S754_infinity _ | S754_nan => None
  end.

End F64.

Abbreviation float64 := F64.float64.

Declare Scope f64_scope.
Delimit Scope f64_scope with f64.
Infix "+" := F64.add : f64_scope.
Infix "-" := F64.sub : f64_scope.
Infix "*" := F64.mul : f64_scope.
Infix "/" := F64.div : f64_scope.

(** ** Go's [uint8] *)

Definition byte_val (b : byte) : Z := Z.of_N (Byte.to_N b).

(** The byte of a number in [[0, 256)]. *)
Definition byte_of_Z (z : Z) : byte :=
  default x00 (Byte.of_N (Z.to_N z)).

(** [float64(b)] for a [uint8] *)
Definition float64_of_uint8 (b : byte) : float64 := F64.of_Z (byte_val b).

(** ** Slices *)

(** [s[i]]: panics unless [0 <= i < len(s)]. *)
Definition index {T} (s : list T) (i : Z) : option T :=
  if 0 <=? i then s !! Z.to_nat i else None.

(** [s[i] = v] *)
Definition store {T} (s : list T) (i : Z) (v : T) : option (list T) :=
  if (0 <=? i) && (i <? Z.of_nat (length s))
  then Some (<[Z.to_nat i := v]> s) else None.

(** [s[lo:hi]]: panics unless [0 <= lo <= hi <= cap(s)]; the buffers sliced
    here come from [make], so their capacity is their length. *)
Definition slice {T} (s : list T) (lo hi : Z) : option (list T) :=
  if (0 <=? lo) && (lo <=? hi) && (hi <=? Z.of_nat (length s))
  then Some (take (Z.to_nat (hi - lo)) (drop (Z.to_nat lo) s)) else None.

(** [s[lo:]] *)
Definition slice_from {T} (s : list T) (lo : Z) : option (list T) :=
  if (0 <=? lo) && (lo <=? Z.of_nat (length s))
  then Some (drop (Z.to_nat lo) s) else None.

(** [copy(s[lo:hi], src)]: the slice [s[lo:hi]] shares its elements with [s],
    so the copy is an update of [s]; [copy] moves as many elements as the
    shorter of the two slices holds. *)
Definition copy_into {T} (s : list T) (lo hi : Z) (src : list T) : option (list T) :=
  d ← slice s lo hi;
  let n := Nat.min (length d) (length src) in
  Some (take (Z.to_nat lo) s ++ take n src ++ drop (Z.to_nat lo + n) s).

(** [for i := lo; i < hi; i++ { body }] runs [Z.to_nat (hi - lo)] times;
    [for_range n lo body] is the loop with [n] iterations left. *)
Fixpoint for_range {S} (n : nat) (i : Z) (body : Z -> S -> option S) (s : S)
  : option S :=
  match n with
  | O => Some s
  | S n' => s' ← body i s; for_range n' (i + 1) body s'
  end.

(** ** Colours, buffers and images *)

Module color.
(** [color.NRGBA]: non-premultiplied, 8 bits a channel. *)
Record NRGBA := { R : byte; G : byte; B : byte; A : byte }.
Definition zero : NRGBA := {| R := x00; G := x00; B := x00; A := x00 |}.
Definition bytes (c : NRGBA) : list byte := [R c; G c; B c; A c].
End color.

(** [image.NRGBA] *)
Record NRGBA := { Pix : list byte; Stride : Z; Rect : Rectangle }.

(** The [image.Image] interface, its colours read through the NRGBA colour
    model. *)
Record Image := { Bounds : Rectangle; At : Z -> Z -> color.NRGBA }.

(** [NRGBA.PixOffset] *)
Definition PixOffset (p : NRGBA) (x y : Z) : Z :=
  (y -i Y (Min (Rect p))) *i Stride p +i (x -i X (Min (Rect p))) *i 4.

(** [NRGBA.NRGBAAt] *)
Definition NRGBAAt (p : NRGBA) (x y : Z) : option color.NRGBA :=
  if negb (PIn (Pt x y) (Rect p)) then Some color.zero
  else
    let i := PixOffset p x y in
    r ← index (Pix p) i;
    g ← index (Pix p) (i + 1);
    b ← index (Pix p) (i + 2);
    a ← index (Pix p) (i + 3);
    Some {| color.R := r; color.G := g; color.B := b; color.A := a |}.

(** An [image.NRGBA] used as an [image.Image]. The buffers so used here are
    sub-images of a clone, whose pixels are all in the buffer. *)
Definition image_of_NRGBA (p : NRGBA) : Image :=
  {| Bounds := Rect p; At := fun x y => default color.zero (NRGBAAt p x y) |}.

(** [NRGBA.SubImage] *)
Definition SubImage (p : NRGBA) (r : Rectangle) : option NRGBA :=
  let r := Intersect r (Rect p) in
  if Empty r then Some {| Pix := []; Stride := 0; Rect := ZR |}
  else
    let i := PixOffset p (X (Min r)) (Y (Min r)) in
    pix ← slice_from (Pix p) i;
    Some {| Pix := pix; Stride := Stride p; Rect := r |}.

(** Modelled from the spec: [Clone] is called by tools.go and defined
    elsewhere in the package. Section 6: it "produces an independent,
    zero-origin copy of an image's pixels"; section 3 gives the buffer:
    row-major, channel order R, G, B, A, a stride of [width * 4] bytes. *)
Definition Clone (img : Image) : NRGBA :=
  let b := Bounds img in
  let w := Dx b in
  let h := Dy b in
  {| Pix :=
       mjoin ((fun y =>
                 mjoin ((fun x =>
                           color.bytes (At img (X (Min b) +i x) (Y (Min b) +i y)))
                        <$> seqZ 0 w))
              <$> seqZ 0 h);
     Stride := 4 *i w;
     Rect := RSub b (Min b) |}.

(** Modelled from the spec: [toNRGBA] is called by tools.go and defined
    elsewhere in the package. Section 6: it "normalizes any image
    representation to the RGBA8 buffer model", whose origin is (0,0). *)
Definition toNRGBA (img : Image) : NRGBA := Clone img.

(** ** tools.go: Crop, CropCenter, CropTop *)

Definition Crop (img : Image) (rect : Rectangle) : option NRGBA :=
  let src := toNRGBA img in
  let srcRect := RSub rect (Min (Bounds img)) in
  sub ← SubImage src srcRect;
  Some (Clone (image_of_NRGBA sub)).

(** The rectangle [CropCenter] hands to [Crop]. *)
Definition CropCenter_rect (img : Image) (width height : Z) : Rectangle :=
  let cropW := width in
  let cropH := height in
  let srcBounds := Bounds img in
  let srcW := Dx srcBounds in
  let srcH := Dy srcBounds in
  let srcMinX := X (Min srcBounds) in
  let srcMinY := Y (Min srcBounds) in
  let centerX := srcMinX +i srcW /i 2 in
  let centerY := srcMinY +i srcH /i 2 in
  let x0 := centerX -i cropW /i 2 in
  let y0 := centerY -i cropH /i 2 in
  let x1 := x0 +i cropW in
  let y1 := y0 +i cropH in
  image.Rect x0 y0 x1 y1.

Definition CropCenter (img : Image) (width height : Z) : option NRGBA :=
  Crop img (CropCenter_rect img width height).

(** The rectangle [CropTop] hands to [Crop]. *)
Definition CropTop_rect (img : Image) (width height : Z) : Rectangle :=
  let cropW := width in
  let cropH := height in
  let srcBounds := Bounds img in
  let srcW := Dx srcBounds in
  let srcMinX := X (Min srcBounds) in
  let centerX := srcMinX +i srcW /i 2 in
  let x0 := centerX -i cropW /i 2 in
  let y0 := 0 in
  let x1 := x0 +i cropW in
  let y1 := y0 +i cropH in
  image.Rect x0 y0 x1 y1.

Definition CropTop (img : Image) (width height : Z) : option NRGBA :=
  Crop img (CropTop_rect img width height).

(** ** tools.go: Paste, PasteCenter *)

(** The rectangle the pasted image covers in the clone's coordinates. *)
Definition pasteBounds (background img : Image) (pos : Point) : Rectangle :=
  let src := toNRGBA img in
  let startPt := PSub pos (Min (Bounds background)) in
  let endPt := PAdd startPt (Size (Rect src)) in
  {| Min := startPt; Max := endPt |}.

(** The body of [Paste]'s loop over rows; the state is [(i0, j0, dst.Pix)]. *)
Definition paste_row (src : NRGBA) (rowSize di dj : Z) (row : Z)
    (st : Z * Z * list byte) : option (Z * Z * list byte) :=
  let '(i0, j0, pix) := st in
  s ← slice (Pix src) j0 (j0 +i rowSize);
  pix' ← copy_into pix i0 (i0 +i rowSize) s;
  Some (i0 +i di, j0 +i dj, pix').

Definition Paste (background img : Image) (pos : Point) : option NRGBA :=
  let src := toNRGBA img in
  let dst := Clone background in
  let pasteBounds := pasteBounds background img pos in
  if Overlaps (Rect dst) pasteBounds then
    let intersectBounds := Intersect (Rect dst) pasteBounds in
    let rowSize := Dx intersectBounds *i 4 in
    let numRows := Dy intersectBounds in
    let srcStartX := X (Min intersectBounds) -i X (Min pasteBounds) in
    let srcStartY := Y (Min intersectBounds) -i Y (Min pasteBounds) in
    let i0 := PixOffset dst (X (Min intersectBounds)) (Y (Min intersectBounds)) in
    let j0 := PixOffset src srcStartX srcStartY in
    let di := Stride dst in
    let dj := Stride src in
    '(_, _, pix) ← for_range (Z.to_nat (numRows - 0)) 0
                     (paste_row src rowSize di dj) (i0, j0, Pix dst);
    Some {| Pix := pix; Stride := Stride dst; Rect := Rect dst |}
  else Some dst.

Definition PasteCenter (background img : Image) : option NRGBA :=
  let bgBounds := Bounds background in
  let bgW := Dx bgBounds in
  let bgH := Dy bgBounds in
  let bgMinX := X (Min bgBounds) in
  let bgMinY := Y (Min bgBounds) in
  let centerX := bgMinX +i bgW /i 2 in
  let centerY := bgMinY +i bgH /i 2 in
  let x0 := centerX -i Dx (Bounds img) /i 2 in
  let y0 := centerY -i Dy (Bounds img) /i 2 in
  Paste background img (Pt x0 y0).

(** ** tools.go: Overlay *)

Definition f0 : float64 := S754_zero false.
Definition f1 : float64 := F64.of_Z 1.
Definition f255 : float64 := F64.of_Z 255.

(** [math.Min(math.Max(opacity, 0.0), 1.0)] *)
Definition clampOpacity (opacity : float64) : float64 :=
  F64.Min (F64.Max opacity f0) f1.

(** The two blend coefficients of a pixel, as [Overlay] leaves them after
    the division by [coefSum]; [a1] is the destination alpha, [a2] the
    source alpha. *)
Definition blendCoefs (opacity a1 a2 : float64) : float64 * float64 :=
  let coef2 := (opacity * a2 / f255)%f64 in
  let coef1 := ((f1 - coef2) * a1 / f255)%f64 in
  let coefSum := (coef1 + coef2)%f64 in
  let coef1 := (coef1 / coefSum)%f64 in
  let coef2 := (coef2 / coefSum)%f64 in
  (coef1, coef2).

(** The alpha [Overlay] computes, before its conversion to [uint8]. *)
Definition blendAlpha (opacity a1 a2 : float64) : float64 :=
  F64.Min (a1 + a2 * opacity * (f255 - a1) / f255)%f64 f255.

Section Platform.

(** [uint8(f)] when [f] is a NaN, an infinity, or has an integer part
    outside [[0, 255]]: the Go specification leaves the result to the
    implementation. *)
Variable uint8_out_of_range : float64 -> byte.

(** [uint8(f)] *)
Definition uint8_of_float64 (f : float64) : byte :=
  match F64.trunc f with
  | Some z =>
      if (0 <=? z) && (z <? 256) then byte_of_Z z else uint8_out_of_range f
  | None => uint8_out_of_range f
  end.

(** [dst.Pix[i+c] = uint8(float64(dst.Pix[i+c])*coef1 +
    float64(src.Pix[j+c])*coef2)] *)
Definition overlay_channel (src : NRGBA) (coef1 coef2 : float64)
    (i j c : Z) (pix : list byte) : option (list byte) :=
  d ← index pix (i +i c);
  s ← index (Pix src) (j +i c);
  store pix (i +i c)
    (uint8_of_float64
       (float64_of_uint8 d * coef1 + float64_of_uint8 s * coef2)%f64).

(** The body of [Overlay]'s loops, at the pixel [(x, y)] of [dst]. *)
Definition overlay_pixel (src : NRGBA) (dstStride : Z)
    (pasteBounds : Rectangle) (opacity : float64) (y x : Z)
    (pix : list byte) : option (list byte) :=
  let i := y *i dstStride +i x *i 4 in
  let srcX := x -i X (Min pasteBounds) in
  let srcY := y -i Y (Min pasteBounds) in
  let j := srcY *i Stride src +i srcX *i 4 in
  d3 ← index pix (i +i 3);
  s3 ← index (Pix src) (j +i 3);
  let a1 := float64_of_uint8 d3 in
  let a2 := float64_of_uint8 s3 in
  let '(coef1, coef2) := blendCoefs opacity a1 a2 in
  pix ← overlay_channel src coef1 coef2 i j 0 pix;
  pix ← overlay_channel src coef1 coef2 i j 1 pix;
  pix ← overlay_channel src coef1 coef2 i j 2 pix;
  store pix (i +i 3) (uint8_of_float64 (blendAlpha opacity a1 a2)).

Definition Overlay (background img : Image) (pos : Point)
    (opacity : float64) : option NRGBA :=
  let opacity := clampOpacity opacity in
  let src := toNRGBA img in
  let dst := Clone background in
  let pasteBounds := pasteBounds background img pos in
  if Overlaps (Rect dst) pasteBounds then
    let intersectBounds := Intersect (Rect dst) pasteBounds in
    pix ← for_range
            (Z.to_nat (Y (Max intersectBounds) - Y (Min intersectBounds)))
            (Y (Min intersectBounds))
            (fun y pix =>
               for_range
                 (Z.to_nat (X (Max intersectBounds) - X (Min intersectBounds)))
                 (X (Min intersectBounds))
                 (overlay_pixel src (Stride dst) pasteBounds opacity y)
                 pix)
            (Pix dst);
    Some {| Pix := pix; Stride := Stride dst; Rect := Rect dst |}
  else Some dst.

End Platform.

(** The conversion of the gc compiler on amd64: CVTTSD2SL gives the
    "integer indefinite" value [0x80000000] for a NaN or an infinity, whose
    low byte is 0; for a finite value within [int32] the low byte of the
    integer part. *)
Definition uint8_amd64 (f : float64) : byte :=
  match F64.trunc f with
  | Some z =>
      if (- 2 ^ 31 <=? z) && (z <? 2 ^ 31) then byte_of_Z (z mod 256) else x00
  | None => x00
  end.

(** * Properties *)

(** ** Integers that do not wrap *)

Lemma wrap_id z : GoInt.in_range z -> GoInt.wrap z = z.
Proof.
  unfold GoInt.in_range, GoInt.wrap, GoInt.min_int, GoInt.max_int. intros H.
  rewrite Z.mod_small; lia.
Qed.

Lemma wrap_in_range z : GoInt.in_range (GoInt.wrap z).
Proof.
  unfold GoInt.in_range, GoInt.wrap, GoInt.min_int, GoInt.max_int.
  pose proof (Z.mod_pos_bound (z + 2 ^ 63) (2 ^ 64)). lia.
Qed.

Ltac int_simpl :=
  unfold GoInt.add, GoInt.sub, GoInt.mul;
  rewrite ?wrap_id
    by (unfold GoInt.in_range, GoInt.min_int, GoInt.max_int; try lia; nia).

(** ** Slices *)

Section SliceFacts.
Context {T : Type}.
Implicit Types s : list T.

Lemma index_Some s i v :
  index s i = Some v <-> 0 <= i /\ s !! Z.to_nat i = Some v.
Proof.
  unfold index. destruct (Z.leb_spec 0 i); [tauto|].
  split; [discriminate|lia].
Qed.

Lemma index_nat s (n : nat) : index s (Z.of_nat n) = s !! n.
Proof.
  unfold index. destruct (Z.leb_spec 0 (Z.of_nat n)); [|lia].
  now rewrite Nat2Z.id.
Qed.

Lemma index_lt s i v : index s i = Some v -> 0 <= i < Z.of_nat (length s).
Proof.
  rewrite index_Some. intros [? H1]. apply lookup_lt_Some in H1. lia.
Qed.

Lemma index_is_Some s i :
  0 <= i < Z.of_nat (length s) -> exists v, index s i = Some v.
Proof.
  intros H. destruct (lookup_lt_is_Some_2 s (Z.to_nat i)) as [v Hv]; [lia|].
  exists v. apply index_Some. split; [lia|done].
Qed.

Lemma store_Some s i v :
  0 <= i < Z.of_nat (length s) -> store s i v = Some (<[Z.to_nat i := v]> s).
Proof.
  intros H. unfold store.
  destruct (Z.leb_spec 0 i); [|lia].
  destruct (Z.ltb_spec i (Z.of_nat (length s))); [done|lia].
Qed.

Lemma index_insert_eq s i v :
  0 <= i < Z.of_nat (length s) -> index (<[Z.to_nat i := v]> s) i = Some v.
Proof.
  intros H. apply index_Some. split; [lia|].
  apply list_lookup_insert_eq. lia.
Qed.

Lemma index_insert_ne s i j v :
  0 <= i -> i <> j -> index (<[Z.to_nat i := v]> s) j = index s j.
Proof.
  intros H Hne. unfold index. destruct (Z.leb_spec 0 j); [|done].
  apply list_lookup_insert_ne. lia.
Qed.

End SliceFacts.

(** ** Rectangles *)

Definition inside (x y : Z) (r : Rectangle) : Prop :=
  X (Min r) <= x < X (Max r) /\ Y (Min r) <= y < Y (Max r).

Lemma PIn_inside x y r : PIn (Pt x y) r = true <-> inside x y r.
Proof. unfold PIn, inside. simpl. lia. Qed.

Lemma Overlaps_common_point r s :
  Overlaps r s = true <-> exists x y, inside x y r /\ inside x y s.
Proof.
  unfold Overlaps, Empty, inside. split.
  - intros H.
    exists (Z.max (X (Min r)) (X (Min s))), (Z.max (Y (Min r)) (Y (Min s))). lia.
  - intros (x & y & H1 & H2). lia.
Qed.

Lemma inside_Intersect x y r s :
  inside x y (Intersect r s) <-> inside x y r /\ inside x y s.
Proof.
  unfold Intersect, Empty, inside, ZR. cbn [Min Max X Y Pt].
  repeat match goal with
  | |- context [?a <? ?b] => destruct (Z.ltb_spec a b)
  | |- context [?a <=? ?b] => destruct (Z.leb_spec a b)
  end; cbn [orb Min Max X Y Pt]; lia.
Qed.

(** ** The buffer of a clone *)

(** The pixel of [img] at the offset [(x, y)] from its top-left corner. *)
Definition pixel_of (img : Image) (x y : Z) : color.NRGBA :=
  At img (X (Min (Bounds img)) +i x) (Y (Min (Bounds img)) +i y).

(** The buffer of the image can be allocated: its sizes are not negative
    and the length of the buffer is an [int]. *)
Definition buffer_ok (img : Image) : Prop :=
  0 <= Dx (Bounds img) /\ 0 <= Dy (Bounds img) /\
  4 * Dx (Bounds img) * Dy (Bounds img) <= GoInt.max_int.

Lemma Clone_Rect img :
  Rect (Clone img) = {| Min := Pt 0 0; Max := Pt (Dx (Bounds img)) (Dy (Bounds img)) |}.
Proof.
  unfold Clone, RSub, PSub, Dx, Dy. cbn [Rect Min Max X Y Pt].
  unfold GoInt.sub. rewrite !Z.sub_diag. reflexivity.
Qed.

Lemma length_join_uniform {T} (n : nat) (ls : list (list T)) :
  Forall (fun l => length l = n) ls -> length (mjoin ls) = (length ls * n)%nat.
Proof.
  intros H. rewrite length_join, (sum_list_fmap_same n) by done. reflexivity.
Qed.

Lemma Clone_row_length img y :
  length (mjoin ((fun x => color.bytes (At img (X (Min (Bounds img)) +i x) y))
                 <$> seqZ 0 (Dx (Bounds img))))
  = (Z.to_nat (Dx (Bounds img)) * 4)%nat.
Proof.
  rewrite (length_join_uniform 4), length_fmap, length_seqZ; [done|].
  apply Forall_fmap, Forall_forall. intros x' _. reflexivity.
Qed.

Lemma Clone_length img :
  length (Pix (Clone img))
  = (Z.to_nat (Dy (Bounds img)) * (Z.to_nat (Dx (Bounds img)) * 4))%nat.
Proof.
  unfold Clone. cbn [Pix].
  rewrite (length_join_uniform (Z.to_nat (Dx (Bounds img)) * 4)),
    length_fmap, length_seqZ; [done|].
  apply Forall_fmap, Forall_forall. intros y' _. apply Clone_row_length.
Qed.

Lemma Clone_index img x y c :
  0 <= x < Dx (Bounds img) -> 0 <= y < Dy (Bounds img) -> 0 <= c < 4 ->
  index (Pix (Clone img)) (y * (4 * Dx (Bounds img)) + 4 * x + c)
  = index (color.bytes (pixel_of img x y)) c.
Proof.
  intros Hx Hy Hc.
  set (w := Dx (Bounds img)) in *. set (h := Dy (Bounds img)) in *.
  destruct (index_is_Some (color.bytes (pixel_of img x y)) c) as [v Hv];
    [cbn; lia|].
  rewrite Hv. apply index_Some in Hv as [_ Hv].
  apply index_Some. split; [nia|].
  replace (Z.to_nat (y * (4 * w) + 4 * x + c))
    with (Z.to_nat y * (Z.to_nat w * 4) + (Z.to_nat x * 4 + Z.to_nat c))%nat by nia.
  unfold Clone. cbn [Pix]. fold w h.
  apply (join_lookup_Some_same_length' (Z.to_nat w * 4)).
  - apply Forall_fmap, Forall_forall. intros y' _. apply Clone_row_length.
  - nia.
  - eexists. split.
    + rewrite list_lookup_fmap, lookup_seqZ_lt by lia. reflexivity.
    + apply (join_lookup_Some_same_length' 4).
      * apply Forall_fmap, Forall_forall. intros x' _. reflexivity.
      * lia.
      * eexists. split.
        -- rewrite list_lookup_fmap, lookup_seqZ_lt by lia. reflexivity.
        -- unfold pixel_of in Hv. rewrite !Z.add_0_l, !Z2Nat.id by lia. exact Hv.
Qed.

(** ** Copying a row *)

Lemma slice_Some {T} (s : list T) lo hi :
  0 <= lo <= hi -> hi <= Z.of_nat (length s) ->
  slice s lo hi = Some (take (Z.to_nat (hi - lo)) (drop (Z.to_nat lo) s)).
Proof.
  intros H1 H2. unfold slice.
  destruct (Z.leb_spec 0 lo); [|lia].
  destruct (Z.leb_spec lo hi); [|lia].
  destruct (Z.leb_spec hi (Z.of_nat (length s))); [done|lia].
Qed.

Lemma slice_length {T} (s d : list T) lo hi :
  slice s lo hi = Some d -> Z.of_nat (length d) = hi - lo.
Proof.
  unfold slice.
  destruct (Z.leb_spec 0 lo); [|discriminate].
  destruct (Z.leb_spec lo hi); [|discriminate].
  destruct (Z.leb_spec hi (Z.of_nat (length s))); [|discriminate].
  intros [= <-]. rewrite length_take, length_drop. lia.
Qed.

Lemma slice_index {T} (s d : list T) lo hi t :
  slice s lo hi = Some d -> 0 <= t < hi - lo -> index d t = index s (lo + t).
Proof.
  unfold slice.
  destruct (Z.leb_spec 0 lo); [|discriminate].
  destruct (Z.leb_spec lo hi); [|discriminate].
  destruct (Z.leb_spec hi (Z.of_nat (length s))); [|discriminate].
  intros [= <-] Ht. unfold index.
  destruct (Z.leb_spec 0 t); [|lia]. destruct (Z.leb_spec 0 (lo + t)); [|lia].
  rewrite lookup_take_lt, lookup_drop by lia. f_equal. lia.
Qed.

Lemma copy_into_spec {T} (s src : list T) lo hi :
  0 <= lo <= hi -> hi <= Z.of_nat (length s) ->
  Z.of_nat (length src) = hi - lo ->
  exists s', copy_into s lo hi src = Some s' /\ length s' = length s /\
    (forall t, 0 <= t < hi - lo -> index s' (lo + t) = index src t) /\
    (forall k, ~ lo <= k < hi -> index s' k = index s k).
Proof.
  intros H1 H2 H3. unfold copy_into. rewrite slice_Some by lia. cbn.
  rewrite length_take, length_drop.
  replace (Nat.min (Z.to_nat (hi - lo) `min` (length s - Z.to_nat lo)) (length src))
    with (length src) by lia.
  rewrite firstn_all. eexists. split; [reflexivity|]. split; [|split].
  - rewrite !length_app, length_take, length_drop. lia.
  - intros t Ht. unfold index.
    destruct (Z.leb_spec 0 (lo + t)); [|lia]. destruct (Z.leb_spec 0 t); [|lia].
    rewrite lookup_app_r by (rewrite length_take; lia).
    rewrite length_take, lookup_app_l by lia. f_equal. lia.
  - intros k Hk. unfold index. destruct (Z.leb_spec 0 k); [|done].
    destruct (Z_lt_le_dec k lo).
    + rewrite lookup_app_l by (rewrite length_take; lia).
      apply lookup_take_lt. lia.
    + rewrite lookup_app_r by (rewrite length_take; lia).
      rewrite length_take, lookup_app_r by lia.
      rewrite lookup_drop. f_equal. lia.
Qed.

(** The loop of [Paste]: [n] rows of [rowSize] bytes, the row [r] going from
    the offset [j0 + r * dj] of the source to the offset [i0 + r * di] of
    the destination. *)
Lemma paste_rows_spec src rowSize di dj n :
  forall row i0 j0 pix,
    0 <= rowSize <= di -> 0 <= dj -> 0 <= i0 -> 0 <= j0 ->
    i0 + Z.of_nat n * di <= Z.of_nat (length pix) + (di - rowSize) ->
    j0 + Z.of_nat n * dj <= Z.of_nat (length (Pix src)) + (dj - rowSize) ->
    Z.of_nat (length pix) <= GoInt.max_int ->
    Z.of_nat (length (Pix src)) <= GoInt.max_int ->
    exists i' j' pix',
      for_range n row (paste_row src rowSize di dj) (i0, j0, pix)
        = Some (i', j', pix') /\
      length pix' = length pix /\
      (forall r t, 0 <= r < Z.of_nat n -> 0 <= t < rowSize ->
         index pix' (i0 + r * di + t) = index (Pix src) (j0 + r * dj + t)) /\
      (forall k, (forall r, 0 <= r < Z.of_nat n ->
                    ~ i0 + r * di <= k < i0 + r * di + rowSize) ->
         index pix' k = index pix k).
Proof.
  induction n as [|n IH]; intros row i0 j0 pix Hrow Hdj Hi0 Hj0 Hi Hj Hlen Hlen'.
  { exists i0, j0, pix. cbn. split; [done|]. split; [done|]. split; [lia|done]. }
  cbn [for_range]. unfold paste_row at 2.
  assert (GoInt.in_range (j0 + rowSize) /\ GoInt.in_range (i0 + rowSize)) as [Hr1 Hr2]
    by (unfold GoInt.in_range, GoInt.min_int, GoInt.max_int in *; nia).
  unfold GoInt.add.
  rewrite (wrap_id (j0 + rowSize)), (wrap_id (i0 + rowSize)) by assumption.
  destruct (slice (Pix src) j0 (j0 + rowSize)) as [s|] eqn:Hs;
    [|rewrite slice_Some in Hs by nia; discriminate].
  cbn [mbind option_bind].
  destruct (copy_into_spec pix s i0 (i0 + rowSize))
    as (pix1 & -> & Hl1 & Hin1 & Hout1);
    [lia|nia|apply slice_length in Hs; lia|].
  cbn [mbind option_bind].
  destruct n as [|n'].
  { eexists _, _, pix1. cbn [for_range]. split; [reflexivity|]. split; [done|]. split.
    - intros r t Hr Ht. assert (r = 0) as -> by lia.
      rewrite !Z.mul_0_l, !Z.add_0_r, Hin1 by lia.
      eapply slice_index; [exact Hs|lia].
    - intros k Hk. apply Hout1. specialize (Hk 0). lia. }
  assert (GoInt.in_range (i0 + di) /\ GoInt.in_range (j0 + dj)) as [Hr3 Hr4]
    by (unfold GoInt.in_range, GoInt.min_int, GoInt.max_int in *; nia).
  rewrite (wrap_id (i0 + di)), (wrap_id (j0 + dj)) by assumption.
  destruct (IH (row + 1) (i0 + di) (j0 + dj) pix1)
    as (i' & j' & pix' & -> & Hl' & Hin' & Hout'); try lia; try nia.
  exists i', j', pix'. split; [reflexivity|]. split; [lia|]. split.
  - intros r t Hr Ht. destruct (Z.eq_dec r 0) as [->|Hne].
    + rewrite !Z.mul_0_l, !Z.add_0_r, Hout', Hin1 by (try lia; intros; nia).
      eapply slice_index; [exact Hs|lia].
    + specialize (Hin' (r - 1) t).
      replace (i0 + di + (r - 1) * di + t) with (i0 + r * di + t) in Hin' by ring.
      replace (j0 + dj + (r - 1) * dj + t) with (j0 + r * dj + t) in Hin' by ring.
      apply Hin'; lia.
  - intros k Hk. rewrite Hout'.
    + apply Hout1. specialize (Hk 0). lia.
    + intros r Hr. specialize (Hk (r + 1)).
      replace (i0 + (r + 1) * di) with (i0 + di + r * di) in Hk by ring.
      apply Hk. lia.
Qed.

(** ** The geometry of an overlapping paste *)

Lemma wrap_add_lt a b :
  GoInt.in_range a -> 0 <= b <= GoInt.max_int -> a < GoInt.wrap (a + b) ->
  GoInt.wrap (a + b) = a + b.
Proof.
  unfold GoInt.in_range, GoInt.wrap, GoInt.min_int, GoInt.max_int. intros Ha Hb Hlt.
  destruct (Z_le_gt_dec (a + b) (2 ^ 63 - 1)).
  - rewrite Z.mod_small; lia.
  - exfalso. revert Hlt.
    replace (a + b + 2 ^ 63) with (a + b - 2 ^ 63 + 1 * 2 ^ 64) by lia.
    rewrite Z.mod_add, Z.mod_small; lia.
Qed.

Lemma Dx_in_range r : GoInt.in_range (Dx r).
Proof. apply wrap_in_range. Qed.

Lemma Dy_in_range r : GoInt.in_range (Dy r).
Proof. apply wrap_in_range. Qed.

Lemma Clone_Dx img : Dx (Rect (Clone img)) = Dx (Bounds img).
Proof.
  rewrite Clone_Rect. unfold Dx at 1. cbn [Min Max X Pt]. unfold GoInt.sub.
  rewrite Z.sub_0_r. apply wrap_id, Dx_in_range.
Qed.

Lemma Clone_Dy img : Dy (Rect (Clone img)) = Dy (Bounds img).
Proof.
  rewrite Clone_Rect. unfold Dy at 1. cbn [Min Max Y Pt]. unfold GoInt.sub.
  rewrite Z.sub_0_r. apply wrap_id, Dy_in_range.
Qed.

(** What holds when the pasted rectangle overlaps the clone of the
    background. *)
Record overlap_facts (W H SW SH px py : Z) : Prop := {
  of_W : 1 <= W;  of_H : 1 <= H;  of_SW : 1 <= SW;  of_SH : 1 <= SH;
  of_dst : 4 * W * H <= GoInt.max_int;
  of_src : 4 * SW * SH <= GoInt.max_int;
  of_px : GoInt.in_range px;  of_py : GoInt.in_range py;
  of_x0 : px < W;  of_x1 : 0 < px + SW;
  of_y0 : py < H;  of_y1 : 0 < py + SH
}.

Lemma overlap_geometry bg img pos :
  buffer_ok bg -> buffer_ok img ->
  Overlaps (Rect (Clone bg)) (pasteBounds bg img pos) = true ->
  let W := Dx (Bounds bg) in
  let H := Dy (Bounds bg) in
  let SW := Dx (Bounds img) in
  let SH := Dy (Bounds img) in
  let px := X (Min (pasteBounds bg img pos)) in
  let py := Y (Min (pasteBounds bg img pos)) in
  overlap_facts W H SW SH px py /\
  pasteBounds bg img pos = {| Min := Pt px py; Max := Pt (px + SW) (py + SH) |} /\
  Intersect (Rect (Clone bg)) (pasteBounds bg img pos)
  = {| Min := Pt (Z.max 0 px) (Z.max 0 py);
       Max := Pt (Z.min W (px + SW)) (Z.min H (py + SH)) |}.
Proof.
  intros (HW & HH & Hdst) (HSW & HSH & Hsrc) Hov. intros W H SW SH px py.
  assert (GoInt.in_range px) as Hpx by apply wrap_in_range.
  assert (GoInt.in_range py) as Hpy by apply wrap_in_range.
  assert (X (Max (pasteBounds bg img pos)) = GoInt.wrap (px + SW)) as Hmx.
  { unfold pasteBounds, toNRGBA, Size, PAdd. cbn [Min Max X Y Pt].
    rewrite Clone_Dx. reflexivity. }
  assert (Y (Max (pasteBounds bg img pos)) = GoInt.wrap (py + SH)) as Hmy.
  { unfold pasteBounds, toNRGBA, Size, PAdd. cbn [Min Max X Y Pt].
    rewrite Clone_Dy. reflexivity. }
  pose proof (Dx_in_range (Bounds img)) as HrSW.
  pose proof (Dy_in_range (Bounds img)) as HrSH.
  fold SW in HrSW, HSW, Hsrc. fold SH in HrSH, HSH, Hsrc.
  fold W in HW, Hdst. fold H in HH, Hdst.
  unfold Overlaps, Empty in Hov. rewrite Clone_Rect in Hov.
  cbn [Min Max X Y Pt] in Hov. fold W H px py in Hov. rewrite Hmx, Hmy in Hov.
  assert (GoInt.wrap (px + SW) = px + SW) as Hwx
    by (apply wrap_add_lt; unfold GoInt.in_range in *; lia).
  assert (GoInt.wrap (py + SH) = py + SH) as Hwy
    by (apply wrap_add_lt; unfold GoInt.in_range in *; lia).
  rewrite Hwx in Hmx, Hov. rewrite Hwy in Hmy, Hov.
  assert (pasteBounds bg img pos
          = {| Min := Pt px py; Max := Pt (px + SW) (py + SH) |}) as HP.
  { subst px py. destruct (pasteBounds bg img pos) as [[a b] [c d]].
    cbn [Min Max X Y] in Hmx, Hmy |- *. subst c d. reflexivity. }
  split; [|split; [exact HP|]].
  - constructor; try assumption; lia.
  - rewrite HP, Clone_Rect. unfold Intersect, Empty. cbn [Min Max X Y Pt]. fold W H.
    repeat match goal with
    | |- context [?a <? ?b] => destruct (Z.ltb_spec a b)
    | |- context [?a <=? ?b] => destruct (Z.leb_spec a b)
    end; cbn [orb]; try lia; do 2 f_equal; unfold Pt; f_equal; lia.
Qed.

Lemma Intersect_no_overlap r s x y :
  Overlaps r s = false -> PIn (Pt x y) (Intersect r s) = false.
Proof.
  intros Hov. apply not_true_is_false. intros Hin.
  apply PIn_inside, inside_Intersect in Hin.
  apply not_true_iff_false in Hov. apply Hov, Overlaps_common_point. eauto.
Qed.

(** ** Reading a pixel of a buffer laid out as a clone *)

Lemma NRGBAAt_layout r W H x y col :
  Rect r = {| Min := Pt 0 0; Max := Pt W H |} -> Stride r = 4 * W ->
  4 * W * H <= GoInt.max_int -> 0 <= x < W -> 0 <= y < H ->
  (forall c, 0 <= c < 4 ->
     index (Pix r) (y * (4 * W) + 4 * x + c) = index (color.bytes col) c) ->
  NRGBAAt r x y = Some col.
Proof.
  intros HR HS Hfit Hx Hy Hpix. unfold NRGBAAt, PixOffset, PIn. rewrite HR, HS.
  cbn [Min Max X Y Pt].
  destruct (Z.leb_spec 0 x); [|lia]. destruct (Z.ltb_spec x W); [|lia].
  destruct (Z.leb_spec 0 y); [|lia]. destruct (Z.ltb_spec y H); [|lia].
  cbn [andb negb].
  unfold GoInt.max_int in Hfit.
  assert (GoInt.in_range (y * (4 * W)) /\ GoInt.in_range (x * 4) /\
          GoInt.in_range (y * (4 * W) + x * 4) /\ GoInt.in_range x /\
          GoInt.in_range y) as (R1 & R2 & R3 & R4 & R5)
    by (unfold GoInt.in_range, GoInt.min_int, GoInt.max_int; nia).
  unfold GoInt.sub, GoInt.mul, GoInt.add. rewrite !Z.sub_0_r.
  rewrite (wrap_id x), (wrap_id y), (wrap_id (y * (4 * W))), (wrap_id (x * 4)),
    (wrap_id (y * (4 * W) + x * 4)) by assumption.
  replace (y * (4 * W) + x * 4) with (y * (4 * W) + 4 * x + 0) at 1 by lia.
  replace (y * (4 * W) + x * 4 + 1) with (y * (4 * W) + 4 * x + 1) by lia.
  replace (y * (4 * W) + x * 4 + 2) with (y * (4 * W) + 4 * x + 2) by lia.
  replace (y * (4 * W) + x * 4 + 3) with (y * (4 * W) + 4 * x + 3) by lia.
  rewrite !Hpix by lia. destruct col; reflexivity.
Qed.

Lemma Clone_Stride img :
  1 <= Dy (Bounds img) -> buffer_ok img ->
  Stride (Clone img) = 4 * Dx (Bounds img).
Proof.
  intros Hh (HW & HH & Hfit). unfold Clone. cbn [Stride]. unfold GoInt.mul.
  apply wrap_id. unfold GoInt.in_range, GoInt.min_int, GoInt.max_int in *. nia.
Qed.

Lemma NRGBAAt_Clone img x y :
  buffer_ok img -> inside x y (Rect (Clone img)) ->
  NRGBAAt (Clone img) x y = Some (pixel_of img x y).
Proof.
  intros Hok Hin. rewrite Clone_Rect in Hin. unfold inside in Hin.
  cbn [Min Max X Y Pt] in Hin.
  apply NRGBAAt_layout with (W := Dx (Bounds img)) (H := Dy (Bounds img));
    try lia.
  - apply Clone_Rect.
  - apply Clone_Stride; [lia|done].
  - apply Hok.
  - intros c Hc. apply Clone_index; lia.
Qed.

(** ** Offsets in a buffer of [W * H] pixels *)

Lemma offset_bounds W H x y c :
  0 <= x < W -> 0 <= y < H -> 0 <= c < 4 ->
  0 <= y * (4 * W) /\ y * (4 * W) <= 4 * W * H /\
  0 <= y * (4 * W) + 4 * x + c < 4 * W * H.
Proof.
  intros Hx Hy Hc.
  assert (y * W <= (H - 1) * W) by (apply Z.mul_le_mono_nonneg_r; lia).
  assert (0 <= y * W) by (apply Z.mul_nonneg_nonneg; lia).
  lia.
Qed.

Lemma rows_bound W H y : 0 <= W -> y <= H -> y * (4 * W) <= 4 * W * H.
Proof.
  intros HW Hy. assert (y * W <= H * W) by (apply Z.mul_le_mono_nonneg_r; lia). lia.
Qed.

(** The bytes of the pixel [(x, y)] are outside the part of the row [y']
    between the columns [ix0] and [ix1], unless the pixel is in that part. *)
Lemma row_disjoint W ix0 ix1 x y y' c :
  0 <= ix0 -> ix1 <= W -> 0 <= x < W -> 0 <= c < 4 ->
  ~ (y = y' /\ ix0 <= x < ix1) ->
  ~ y' * (4 * W) + 4 * ix0 <= y * (4 * W) + 4 * x + c < y' * (4 * W) + 4 * ix1.
Proof.
  intros H0 H1 Hx Hc Hne.
  destruct (Z.lt_trichotomy y y') as [Hlt|[->|Hgt]].
  - assert ((y' - y) * W >= W) by nia. lia.
  - lia.
  - assert ((y - y') * W >= W) by nia. lia.
Qed.

Lemma buffer_length img :
  0 <= Dx (Bounds img) -> 0 <= Dy (Bounds img) ->
  Z.of_nat (length (Pix (Clone img))) = 4 * Dx (Bounds img) * Dy (Bounds img).
Proof. intros HW HH. rewrite Clone_length. lia. Qed.

(** ** What Paste computes *)

(** The pixel of the pasted image that lands on the pixel [(x, y)] of the
    result. *)
Definition pasted_pixel (bg img : Image) (pos : Point) (x y : Z) : color.NRGBA :=
  pixel_of img (x - X (Min (pasteBounds bg img pos)))
               (y - Y (Min (pasteBounds bg img pos))).

Lemma Paste_spec bg img pos :
  buffer_ok bg -> buffer_ok img ->
  exists r,
    Paste bg img pos = Some r /\
    Rect r = Rect (Clone bg) /\ Stride r = Stride (Clone bg) /\
    forall x y, inside x y (Rect (Clone bg)) ->
      NRGBAAt r x y
      = Some (if PIn (Pt x y) (Intersect (Rect (Clone bg)) (pasteBounds bg img pos))
              then pasted_pixel bg img pos x y
              else pixel_of bg x y).
Proof.
  intros Hbg Himg. unfold Paste.
  destruct (Overlaps (Rect (Clone bg)) (pasteBounds bg img pos)) eqn:Hov.
  2:{ exists (Clone bg). repeat split. intros x y Hin.
      rewrite Intersect_no_overlap by done. now apply NRGBAAt_Clone. }
  destruct (overlap_geometry bg img pos Hbg Himg Hov) as (F & HP & HI).
  unfold pasted_pixel.
  set (W := Dx (Bounds bg)) in *. set (H := Dy (Bounds bg)) in *.
  set (SW := Dx (Bounds img)) in *. set (SH := Dy (Bounds img)) in *.
  set (px := X (Min (pasteBounds bg img pos))) in *.
  set (py := Y (Min (pasteBounds bg img pos))) in *.
  destruct F. unfold GoInt.in_range, GoInt.min_int, GoInt.max_int in *.
  change (2 ^ 63) with 9223372036854775808 in *.
  set (ix0 := Z.max 0 px) in *. set (iy0 := Z.max 0 py) in *.
  set (ix1 := Z.min W (px + SW)) in *. set (iy1 := Z.min H (py + SH)) in *.
  assert (Stride (Clone bg) = 4 * W) as HSd by (apply Clone_Stride; [lia|done]).
  assert (Stride (toNRGBA img) = 4 * SW) as HSs by (apply Clone_Stride; [lia|done]).
  assert (Rect (toNRGBA img) = {| Min := Pt 0 0; Max := Pt SW SH |}) as HRs
    by apply Clone_Rect.
  assert (Z.of_nat (length (Pix (Clone bg))) = 4 * W * H) as HLd
    by (apply buffer_length; lia).
  assert (Z.of_nat (length (Pix (toNRGBA img))) = 4 * SW * SH) as HLs
    by (apply buffer_length; lia).
  rewrite HI, ?HP. unfold Dx, Dy, PixOffset. rewrite Clone_Rect, HRs, HSd, HSs.
  cbn [Min Max X Y Pt]. fold W H. rewrite !Z.sub_0_r.
  assert (0 <= ix0 < ix1 /\ ix1 <= W /\ 0 <= iy0 < iy1 /\ iy1 <= H /\
          px <= ix0 /\ ix1 <= px + SW /\ py <= iy0 /\ iy1 <= py + SH)
    as (Hx0 & Hx1 & Hy0 & Hy1 & Hpx0 & Hpx1 & Hpy0 & Hpy1) by lia.
  clearbody ix0 ix1 iy0 iy1.
  assert (forall z, - 9223372036854775808 <= z <= 9223372036854775807 ->
                    GoInt.wrap z = z) as Hw
    by (intros; apply wrap_id; unfold GoInt.in_range, GoInt.min_int, GoInt.max_int; lia).
  assert (4 * W <= 4 * W * H /\ 4 * SW <= 4 * SW * SH) as [Bw Bsw]
    by (pose proof (rows_bound W H 1); pose proof (rows_bound SW SH 1); lia).
  assert (4 * H <= 4 * W * H /\ 4 * SH <= 4 * SW * SH) as [Bh Bsh] by nia.
  pose proof (offset_bounds W H ix0 iy0 0 ltac:(lia) ltac:(lia) ltac:(lia)) as Bd.
  pose proof (offset_bounds SW SH (ix0 - px) (iy0 - py) 0
                ltac:(lia) ltac:(lia) ltac:(lia)) as Bs.
  pose proof (rows_bound W H iy1 ltac:(lia) ltac:(lia)) as Bd1.
  pose proof (rows_bound SW SH (iy1 - py) ltac:(lia) ltac:(lia)) as Bs1.
  unfold GoInt.sub, GoInt.mul, GoInt.add.
  rewrite !Z.sub_0_r.
  rewrite !(Hw (ix1 - ix0)), !(Hw (iy1 - iy0)), !(Hw (ix0 - px)), !(Hw (iy0 - py)),
    !(Hw ix0), !(Hw iy0) by lia.
  rewrite (Hw ((ix1 - ix0) * 4)), (Hw (iy0 * (4 * W))), (Hw (ix0 * 4)),
    (Hw ((iy0 - py) * (4 * SW))), (Hw ((ix0 - px) * 4)) by lia.
  rewrite (Hw (iy0 * (4 * W) + ix0 * 4)),
    (Hw ((iy0 - py) * (4 * SW) + (ix0 - px) * 4)) by lia.
  destruct (paste_rows_spec (toNRGBA img) ((ix1 - ix0) * 4) (4 * W) (4 * SW)
              (Z.to_nat (iy1 - iy0)) 0 (iy0 * (4 * W) + ix0 * 4)
              ((iy0 - py) * (4 * SW) + (ix0 - px) * 4) (Pix (Clone bg)))
    as (i' & j' & pix' & -> & Hl & Hin & Hout);
    try (unfold GoInt.max_int; rewrite ?HLd, ?HLs, ?Z2Nat.id by lia; lia).
  cbn [mbind option_bind]. eexists. split; [reflexivity|]. cbn [Rect Stride].
  split; [reflexivity|]. split; [done|].
  intros x y Hxy. unfold inside in Hxy.
  cbn [Min Max X Y Pt] in Hxy.
  apply NRGBAAt_layout with (W := W) (H := H); cbn [Pix Stride Rect];
    [reflexivity|done|done|lia|lia|].
  intros c Hc. unfold PIn. cbn [Min Max X Y Pt].
  destruct (Z.leb_spec ix0 x); cbn [andb];
  [destruct (Z.ltb_spec x ix1); cbn [andb];
   [destruct (Z.leb_spec iy0 y); cbn [andb];
    [destruct (Z.ltb_spec y iy1); cbn [andb]|]|]|].
  { replace (y * (4 * W) + 4 * x + c)
      with (iy0 * (4 * W) + ix0 * 4 + (y - iy0) * (4 * W) + (4 * (x - ix0) + c)) by ring.
    rewrite Hin by lia.
    replace ((iy0 - py) * (4 * SW) + (ix0 - px) * 4 + (y - iy0) * (4 * SW)
             + (4 * (x - ix0) + c))
      with ((y - py) * (4 * Dx (Bounds img)) + 4 * (x - px) + c) by (fold SW; ring).
    unfold toNRGBA. rewrite Clone_index by (fold SW SH; lia). reflexivity. }
  all: rewrite Hout; [rewrite Clone_index by (fold W H; lia); reflexivity|];
    intros r Hr;
    replace (iy0 * (4 * W) + ix0 * 4 + r * (4 * W))
      with ((iy0 + r) * (4 * W) + 4 * ix0) by ring;
    replace ((iy0 + r) * (4 * W) + 4 * ix0 + (ix1 - ix0) * 4)
      with ((iy0 + r) * (4 * W) + 4 * ix1) by ring;
    apply row_disjoint; lia.
Qed.

(** ** What Overlay computes *)

Lemma index_bytes c k :
  index (color.bytes c) k
  = if k =? 0 then Some (color.R c) else if k =? 1 then Some (color.G c)
    else if k =? 2 then Some (color.B c) else if k =? 3 then Some (color.A c)
    else None.
Proof.
  unfold index. destruct (Z.leb_spec 0 k).
  - destruct (Z.eq_dec k 0) as [->|]; [done|].
    destruct (Z.eq_dec k 1) as [->|]; [done|].
    destruct (Z.eq_dec k 2) as [->|]; [done|].
    destruct (Z.eq_dec k 3) as [->|]; [done|].
    destruct (Z.eqb_spec k 0); [lia|]. destruct (Z.eqb_spec k 1); [lia|].
    destruct (Z.eqb_spec k 2); [lia|]. destruct (Z.eqb_spec k 3); [lia|].
    apply lookup_ge_None_2. cbn. lia.
  - destruct (Z.eqb_spec k 0); [lia|]. destruct (Z.eqb_spec k 1); [lia|].
    destruct (Z.eqb_spec k 2); [lia|]. destruct (Z.eqb_spec k 3); [lia|]. done.
Qed.

Section OverlayFacts.

Variable cv : float64 -> byte.

(** The pixel [Overlay] writes over the destination pixel [d] for the source
    pixel [s]: the body of its loop, on colours. *)
Definition blend_pixel (opacity : float64) (d s : color.NRGBA) : color.NRGBA :=
  let a1 := float64_of_uint8 (color.A d) in
  let a2 := float64_of_uint8 (color.A s) in
  let '(coef1, coef2) := blendCoefs opacity a1 a2 in
  let ch := fun dc sc =>
    uint8_of_float64 cv
      (float64_of_uint8 dc * coef1 + float64_of_uint8 sc * coef2)%f64 in
  {| color.R := ch (color.R d) (color.R s);
     color.G := ch (color.G d) (color.G s);
     color.B := ch (color.B d) (color.B s);
     color.A := uint8_of_float64 cv (blendAlpha opacity a1 a2) |}.

(** One pixel: the four bytes at [i] become the blend of what they were with
    the four bytes at [j] of the source; no other byte changes. *)
Lemma overlay_pixel_spec src dstStride pb opacity y x pix i j d s :
  i = y * dstStride + x * 4 ->
  j = (y - Y (Min pb)) * Stride src + (x - X (Min pb)) * 4 ->
  GoInt.in_range (y * dstStride) -> GoInt.in_range (x * 4) ->
  GoInt.in_range (y - Y (Min pb)) -> GoInt.in_range (x - X (Min pb)) ->
  GoInt.in_range ((y - Y (Min pb)) * Stride src) ->
  GoInt.in_range ((x - X (Min pb)) * 4) ->
  0 <= i -> i + 4 <= Z.of_nat (length pix) -> Z.of_nat (length pix) <= GoInt.max_int ->
  0 <= j -> j + 4 <= Z.of_nat (length (Pix src)) ->
  Z.of_nat (length (Pix src)) <= GoInt.max_int ->
  (forall c, 0 <= c < 4 -> index pix (i + c) = index (color.bytes d) c) ->
  (forall c, 0 <= c < 4 -> index (Pix src) (j + c) = index (color.bytes s) c) ->
  exists pix',
    overlay_pixel cv src dstStride pb opacity y x pix = Some pix' /\
    length pix' = length pix /\
    (forall c, 0 <= c < 4 ->
       index pix' (i + c) = index (color.bytes (blend_pixel opacity d s)) c) /\
    (forall k, ~ i <= k < i + 4 -> index pix' k = index pix k).
Proof.
  intros Hi Hj Ryd Rx4 Rsy Rsx Rsys Rsx4 Hi0 Hi1 Hlen Hj0 Hj1 Hlen' Hd Hs.
  assert (forall z, 0 <= z <= GoInt.max_int -> GoInt.wrap z = z) as Hw
    by (intros; apply wrap_id; unfold GoInt.in_range, GoInt.min_int, GoInt.max_int in *; lia).
  unfold overlay_pixel, overlay_channel, GoInt.add, GoInt.sub, GoInt.mul.
  rewrite (wrap_id (x - X (Min pb))), (wrap_id (y - Y (Min pb))) by assumption.
  rewrite (wrap_id (y * dstStride)), (wrap_id (x * 4)),
    (wrap_id ((y - Y (Min pb)) * Stride src)),
    (wrap_id ((x - X (Min pb)) * 4)) by assumption.
  rewrite <- Hi, <- Hj. rewrite (Hw i), (Hw j) by lia.
  rewrite !(Hw (i + 0)), !(Hw (i + 1)), !(Hw (i + 2)), !(Hw (i + 3)),
    !(Hw (j + 0)), !(Hw (j + 1)), !(Hw (j + 2)), !(Hw (j + 3)) by lia.
  pose proof (Hd 0) as Hd0. pose proof (Hd 1) as Hd1.
  pose proof (Hd 2) as Hd2. pose proof (Hd 3) as Hd3.
  pose proof (Hs 0) as Hs0. pose proof (Hs 1) as Hs1.
  pose proof (Hs 2) as Hs2. pose proof (Hs 3) as Hs3.
  rewrite index_bytes in Hd0, Hd1, Hd2, Hd3, Hs0, Hs1, Hs2, Hs3.
  cbn [Z.eqb Pos.eqb] in Hd0, Hd1, Hd2, Hd3, Hs0, Hs1, Hs2, Hs3.
  rewrite Hd3, Hs3 by lia. cbn [mbind option_bind].
  unfold blend_pixel.
  destruct (blendCoefs opacity (float64_of_uint8 (color.A d))
              (float64_of_uint8 (color.A s))) as [coef1 coef2].
  rewrite Hd0, Hs0 by lia. cbn [mbind option_bind].
  rewrite store_Some by lia. cbn [mbind option_bind].
  rewrite index_insert_ne, Hd1, Hs1 by lia. cbn [mbind option_bind].
  rewrite store_Some by (rewrite length_insert; lia). cbn [mbind option_bind].
  rewrite !index_insert_ne, Hd2, Hs2 by lia. cbn [mbind option_bind].
  rewrite store_Some by (rewrite !length_insert; lia). cbn [mbind option_bind].
  rewrite store_Some by (rewrite !length_insert; lia).
  eexists. split; [reflexivity|]. split; [now rewrite !length_insert|]. split.
  - intros c Hc. rewrite index_bytes. cbn [color.R color.G color.B color.A].
    assert (c = 0 \/ c = 1 \/ c = 2 \/ c = 3) as [->|[->|[->| ->]]] by lia;
      cbn [Z.eqb Pos.eqb].
    + rewrite !index_insert_ne by lia.
      apply index_insert_eq. lia.
    + rewrite !index_insert_ne by lia.
      apply index_insert_eq. rewrite !length_insert. lia.
    + rewrite !index_insert_ne by lia.
      apply index_insert_eq. rewrite !length_insert. lia.
    + apply index_insert_eq. rewrite !length_insert. lia.
  - intros k Hk. rewrite !index_insert_ne by lia. reflexivity.
Qed.

(** The loops of [Overlay] on a destination of [W * H] pixels and a source
    of [SW * SH] pixels placed at [(px, py)]; the loops run over the
    columns [ix0 .. ix1 - 1] of the rows [iy0 .. iy1 - 1]. *)
Section Loops.

Variables (src : NRGBA) (pb : Rectangle) (opacity : float64).
Variables (W H SW SH ix0 ix1 iy0 iy1 : Z).
Variables (Dc Sc : Z -> Z -> color.NRGBA).

Let px := X (Min pb).
Let py := Y (Min pb).

Hypothesis Hdst : 4 * W * H <= GoInt.max_int.
Hypothesis Hsrc : 4 * SW * SH <= GoInt.max_int.
Hypothesis Hix : 0 <= ix0 /\ ix1 <= W /\ px <= ix0 /\ ix1 <= px + SW.
Hypothesis Hiy : 0 <= iy0 /\ iy1 <= H /\ py <= iy0 /\ iy1 <= py + SH.
Hypothesis Hpx : GoInt.in_range px.
Hypothesis Hpy : GoInt.in_range py.
Hypothesis Hstride : Stride src = 4 * SW.
Hypothesis Hsrclen : Z.of_nat (length (Pix src)) = 4 * SW * SH.
Hypothesis Hsrcpix : forall u v c,
  0 <= u < SW -> 0 <= v < SH -> 0 <= c < 4 ->
  index (Pix src) (v * (4 * SW) + 4 * u + c) = index (color.bytes (Sc u v)) c.

Definition blended (x y : Z) : color.NRGBA :=
  blend_pixel opacity (Dc x y) (Sc (x - px) (y - py)).

Lemma overlay_at_spec x y pix :
  ix0 <= x < ix1 -> iy0 <= y < iy1 ->
  Z.of_nat (length pix) = 4 * W * H ->
  (forall c, 0 <= c < 4 ->
     index pix (y * (4 * W) + 4 * x + c) = index (color.bytes (Dc x y)) c) ->
  exists pix',
    overlay_pixel cv src (4 * W) pb opacity y x pix = Some pix' /\
    length pix' = length pix /\
    (forall c, 0 <= c < 4 ->
       index pix' (y * (4 * W) + 4 * x + c) = index (color.bytes (blended x y)) c) /\
    (forall k, ~ y * (4 * W) + 4 * x <= k < y * (4 * W) + 4 * x + 4 ->
       index pix' k = index pix k).
Proof.
  intros Hx Hy Hlen Hd.
  pose proof (offset_bounds W H x y 0 ltac:(lia) ltac:(lia) ltac:(lia)) as Bd.
  pose proof (offset_bounds W H x y 3 ltac:(lia) ltac:(lia) ltac:(lia)) as Bd3.
  pose proof (offset_bounds SW SH (x - px) (y - py) 0
                ltac:(lia) ltac:(lia) ltac:(lia)) as Bs.
  pose proof (offset_bounds SW SH (x - px) (y - py) 3
                ltac:(lia) ltac:(lia) ltac:(lia)) as Bs3.
  assert (H <= 4 * W * H /\ SH <= 4 * SW * SH /\
          4 * W <= 4 * W * H /\ 4 * SW <= 4 * SW * SH) as (B1 & B2 & B3 & B4) by nia.
  unfold GoInt.in_range, GoInt.min_int, GoInt.max_int in *.
  change (2 ^ 63) with 9223372036854775808 in *.
  destruct (overlay_pixel_spec src (4 * W) pb opacity y x pix
              (y * (4 * W) + x * 4)
              ((y - Y (Min pb)) * Stride src + (x - X (Min pb)) * 4)
              (Dc x y) (Sc (x - px) (y - py)))
    as (pix' & Hrun & Hl & Hin & Hout);
    try reflexivity;
    try (unfold GoInt.in_range, GoInt.min_int, GoInt.max_int;
         change (2 ^ 63) with 9223372036854775808;
         fold px py; rewrite ?Hstride, ?Hsrclen; lia).
  - intros c Hc. rewrite <- Hd by lia. f_equal. lia.
  - intros c Hc. fold px py. rewrite Hstride, <- Hsrcpix by lia. f_equal. lia.
  - exists pix'. split; [exact Hrun|]. split; [exact Hl|]. split.
    + intros c Hc. rewrite <- Hin by lia. f_equal. lia.
    + intros k Hk. apply Hout. lia.
Qed.

Lemma overlay_row_spec y n :
  forall x0 pix,
    ix0 <= x0 -> x0 + Z.of_nat n <= ix1 -> iy0 <= y < iy1 ->
    Z.of_nat (length pix) = 4 * W * H ->
    (forall x c, x0 <= x < x0 + Z.of_nat n -> 0 <= c < 4 ->
       index pix (y * (4 * W) + 4 * x + c) = index (color.bytes (Dc x y)) c) ->
    exists pix',
      for_range n x0 (overlay_pixel cv src (4 * W) pb opacity y) pix = Some pix' /\
      length pix' = length pix /\
      (forall x c, x0 <= x < x0 + Z.of_nat n -> 0 <= c < 4 ->
         index pix' (y * (4 * W) + 4 * x + c)
         = index (color.bytes (blended x y)) c) /\
      (forall k, ~ y * (4 * W) + 4 * x0 <= k < y * (4 * W) + 4 * (x0 + Z.of_nat n) ->
         index pix' k = index pix k).
Proof.
  induction n as [|n IH]; intros x0 pix Hx0 Hx1 Hy Hlen Hd.
  { exists pix. cbn [for_range]. split; [done|]. split; [done|]. split; [lia|done]. }
  cbn [for_range].
  destruct (overlay_at_spec x0 y pix) as (pix1 & -> & Hl1 & Hin1 & Hout1);
    [lia|lia|done|intros; apply Hd; lia|].
  cbn [mbind option_bind].
  destruct (IH (x0 + 1) pix1) as (pix' & -> & Hl' & Hin' & Hout');
    [lia|lia|lia|lia| |].
  { intros x c Hx Hc. rewrite Hout1 by lia. apply Hd; lia. }
  exists pix'. split; [done|]. split; [lia|]. split.
  - intros x c Hx Hc. destruct (Z.eq_dec x x0) as [->|Hne].
    + rewrite Hout' by lia. apply Hin1; lia.
    + apply Hin'; lia.
  - intros k Hk. rewrite Hout' by lia. apply Hout1. lia.
Qed.

Lemma overlay_rows_spec m :
  forall y0 pix,
    iy0 <= y0 -> y0 + Z.of_nat m <= iy1 ->
    Z.of_nat (length pix) = 4 * W * H ->
    (forall x y c, ix0 <= x < ix1 -> y0 <= y < y0 + Z.of_nat m -> 0 <= c < 4 ->
       index pix (y * (4 * W) + 4 * x + c) = index (color.bytes (Dc x y)) c) ->
    exists pix',
      for_range m y0
        (fun y pix =>
           for_range (Z.to_nat (ix1 - ix0)) ix0
             (overlay_pixel cv src (4 * W) pb opacity y) pix) pix = Some pix' /\
      length pix' = length pix /\
      (forall x y c, ix0 <= x < ix1 -> y0 <= y < y0 + Z.of_nat m -> 0 <= c < 4 ->
         index pix' (y * (4 * W) + 4 * x + c)
         = index (color.bytes (blended x y)) c) /\
      (forall k, (forall y, y0 <= y < y0 + Z.of_nat m ->
                    ~ y * (4 * W) + 4 * ix0 <= k < y * (4 * W) + 4 * ix1) ->
         index pix' k = index pix k).
Proof.
  induction m as [|m IH]; intros y0 pix Hy0 Hy1 Hlen Hd.
  { exists pix. cbn [for_range]. split; [done|]. split; [done|]. split; [lia|done]. }
  cbn [for_range].
  destruct (Z_le_gt_dec ix1 ix0) as [Hempty|Hne].
  { replace (Z.to_nat (ix1 - ix0)) with 0%nat in * by lia. cbn [for_range mbind option_bind].
    destruct (IH (y0 + 1) pix) as (pix' & Hrun & Hl' & Hin' & Hout');
      [lia|lia|lia|intros; lia|].
    cbn [for_range] in Hrun. rewrite Hrun.
    exists pix'. split; [done|]. split; [done|]. split; [intros; lia|].
    intros k Hk. apply Hout'. intros; lia. }
  destruct (overlay_row_spec y0 (Z.to_nat (ix1 - ix0)) ix0 pix)
    as (pix1 & -> & Hl1 & Hin1 & Hout1); [lia|lia|lia|done| |].
  { intros x c Hx Hc. apply Hd; lia. }
  cbn [mbind option_bind].
  replace (ix0 + Z.of_nat (Z.to_nat (ix1 - ix0))) with ix1 in * by lia.
  destruct (IH (y0 + 1) pix1) as (pix' & -> & Hl' & Hin' & Hout'); [lia|lia|lia| |].
  { intros x y c Hx Hy Hc. rewrite Hout1; [apply Hd; lia|].
    apply row_disjoint; lia. }
  exists pix'. split; [done|]. split; [lia|]. split.
  - intros x y c Hx Hy Hc. destruct (Z.eq_dec y y0) as [->|Hney].
    + rewrite Hout'; [apply Hin1; lia|].
      intros y' Hy'. apply row_disjoint; lia.
    + apply Hin'; lia.
  - intros k Hk. rewrite Hout'; [apply Hout1, Hk; lia|].
    intros y Hy. apply Hk. lia.
Qed.

End Loops.

End OverlayFacts.

Lemma Overlay_spec cv bg img pos opacity :
  buffer_ok bg -> buffer_ok img ->
  exists r,
    Overlay cv bg img pos opacity = Some r /\
    Rect r = Rect (Clone bg) /\ Stride r = Stride (Clone bg) /\
    forall x y, inside x y (Rect (Clone bg)) ->
      NRGBAAt r x y
      = Some (if PIn (Pt x y) (Intersect (Rect (Clone bg)) (pasteBounds bg img pos))
              then blend_pixel cv (clampOpacity opacity)
                     (pixel_of bg x y) (pasted_pixel bg img pos x y)
              else pixel_of bg x y).
Proof.
  intros Hbg Himg. unfold Overlay.
  destruct (Overlaps (Rect (Clone bg)) (pasteBounds bg img pos)) eqn:Hov.
  2:{ exists (Clone bg). repeat split. intros x y Hin.
      rewrite Intersect_no_overlap by done. now apply NRGBAAt_Clone. }
  destruct (overlap_geometry bg img pos Hbg Himg Hov) as (F & HP & HI).
  unfold pasted_pixel.
  set (W := Dx (Bounds bg)) in *. set (H := Dy (Bounds bg)) in *.
  set (SW := Dx (Bounds img)) in *. set (SH := Dy (Bounds img)) in *.
  set (px := X (Min (pasteBounds bg img pos))) in *.
  set (py := Y (Min (pasteBounds bg img pos))) in *.
  destruct F.
  set (ix0 := Z.max 0 px) in *. set (iy0 := Z.max 0 py) in *.
  set (ix1 := Z.min W (px + SW)) in *. set (iy1 := Z.min H (py + SH)) in *.
  assert (Stride (Clone bg) = 4 * W) as HSd by (apply Clone_Stride; [lia|done]).
  assert (Stride (toNRGBA img) = 4 * SW) as HSs by (apply Clone_Stride; [lia|done]).
  assert (Z.of_nat (length (Pix (Clone bg))) = 4 * W * H) as HLd
    by (apply buffer_length; lia).
  assert (Z.of_nat (length (Pix (toNRGBA img))) = 4 * SW * SH) as HLs
    by (apply buffer_length; lia).
  rewrite HI, HSd. cbn [Min Max X Y Pt].
  assert (0 <= ix0 < ix1 /\ ix1 <= W /\ 0 <= iy0 < iy1 /\ iy1 <= H /\
          px <= ix0 /\ ix1 <= px + SW /\ py <= iy0 /\ iy1 <= py + SH)
    as (Hx0 & Hx1 & Hy0 & Hy1 & Hpx0 & Hpx1 & Hpy0 & Hpy1) by lia.
  clearbody ix0 ix1 iy0 iy1.
  destruct (overlay_rows_spec cv (toNRGBA img) (pasteBounds bg img pos)
              (clampOpacity opacity) W H SW SH ix0 ix1 iy0 iy1
              (pixel_of bg) (pixel_of img))
    with (m := Z.to_nat (iy1 - iy0)) (y0 := iy0) (pix := Pix (Clone bg))
    as (pix' & -> & Hl & Hin & Hout);
    try assumption; try (fold px py; lia).
  { intros u v c Hu Hv Hc. apply Clone_index; assumption. }
  { intros x y c Hx Hy Hc. apply Clone_index; fold W H; lia. }
  cbn [mbind option_bind]. eexists. split; [reflexivity|]. cbn [Rect Stride].
  split; [reflexivity|]. split; [done|].
  intros x y Hxy. unfold inside in Hxy. rewrite Clone_Rect in Hxy.
  cbn [Min Max X Y Pt] in Hxy. fold W H in Hxy.
  apply NRGBAAt_layout with (W := W) (H := H); cbn [Pix Stride Rect];
    [apply Clone_Rect|done|done|lia|lia|].
  intros c Hc. unfold PIn. cbn [Min Max X Y Pt].
  destruct (Z.leb_spec ix0 x); cbn [andb];
  [destruct (Z.ltb_spec x ix1); cbn [andb];
   [destruct (Z.leb_spec iy0 y); cbn [andb];
    [destruct (Z.ltb_spec y iy1); cbn [andb]|]|]|].
  { apply Hin; lia. }
  all: rewrite Hout; [rewrite Clone_index by (fold W H; lia); reflexivity|];
    intros y' Hy'; apply row_disjoint; lia.
Qed.

(** ** Concrete images *)

(** An image of [w * h] pixels at the origin, all of the colour [c]. *)
Definition solid (w h : Z) (c : color.NRGBA) : Image :=
  {| Bounds := image.Rect 0 0 w h; At := fun _ _ => c |}.

Definition rgba (r g b a : byte) : color.NRGBA :=
  {| color.R := r; color.G := g; color.B := b; color.A := a |}.

Definition red : color.NRGBA := rgba xff x00 x00 xff.
Definition blue : color.NRGBA := rgba x00 x00 xff xff.

(** [0.5] *)
Definition half : float64 := F64.div f1 (F64.of_Z 2).

(** ** Paste *)


Lemma buffer_ok_solid w h c :
  0 <= w <= GoInt.max_int -> 0 <= h <= GoInt.max_int ->
  4 * w * h <= GoInt.max_int -> buffer_ok (solid w h c).
Proof.
  intros Hw Hh Hfit. unfold buffer_ok, solid, image.Rect. cbn [Bounds].
  destruct (Z.ltb_spec w 0); [lia|]. destruct (Z.ltb_spec h 0); [lia|].
  unfold Dx, Dy, GoInt.sub. cbn [Min Max X Y Pt]. rewrite !Z.sub_0_r.
  rewrite !wrap_id by (unfold GoInt.in_range, GoInt.min_int, GoInt.max_int in *; lia).
  lia.
Qed.


(** ** An empty intersection *)

(** C5: when the pasted rectangle and the bounds of the background's clone
    have no point in common (which is the case of an overlay of zero width
    or height), [Paste] and [Overlay] both return the clone of the
    background, unmodified. *)
Theorem C5_no_overlap_returns_clone cv bg img pos opacity :
  (forall x y, ~ (inside x y (Rect (Clone bg)) /\
                  inside x y (pasteBounds bg img pos))) ->
  Paste bg img pos = Some (Clone bg) /\
  Overlay cv bg img pos opacity = Some (Clone bg).
Proof.
  intros Hno.
  assert (Overlaps (Rect (Clone bg)) (pasteBounds bg img pos) = false) as Hov.
  { apply not_true_is_false. intros Hov.
    apply Overlaps_common_point in Hov as (x & y & Hxy). exact (Hno x y Hxy). }
  unfold Paste, Overlay. rewrite Hov. split; reflexivity.
Qed.

Lemma C5_witness :
  (forall x y, ~ (inside x y (Rect (Clone (solid 4 4 red))) /\
                  inside x y (pasteBounds (solid 4 4 red) (solid 2 0 blue) (Pt 1 1)))) /\
  Paste (solid 4 4 red) (solid 2 0 blue) (Pt 1 1) = Some (Clone (solid 4 4 red)) /\
  Overlay uint8_amd64 (solid 4 4 red) (solid 2 0 blue) (Pt 1 1) half
  = Some (Clone (solid 4 4 red)).
Proof.
  assert (forall x y, ~ (inside x y (Rect (Clone (solid 4 4 red))) /\
            inside x y (pasteBounds (solid 4 4 red) (solid 2 0 blue) (Pt 1 1)))) as Hno.
  { intros x y. unfold inside. vm_compute. intros [[[? ?] [? ?]] [[? ?] [? ?]]].
    destruct y as [|[p|p|]|]; try discriminate; auto. }
  split; [exact Hno|].
  exact (C5_no_overlap_returns_clone uint8_amd64 (solid 4 4 red) (solid 2 0 blue)
           (Pt 1 1) half Hno).
Defined.

(** ** The concrete scenario *)

(** C3: a 4x4 opaque red background, a 2x2 opaque blue overlay at (1,1), an
    opacity of 0.5: the pixel (1,1) of the result is (127,0,127,255) and
    every pixel of the result outside the rectangle from (1,1) to (3,3) is
    the red (255,0,0,255). *)
Theorem C3_Overlay_red_blue_half cv :
  exists r,
    Overlay cv (solid 4 4 red) (solid 2 2 blue) (Pt 1 1) half = Some r /\
    NRGBAAt r 1 1 = Some (rgba x7f x00 x7f xff) /\
    forall x y,
      PIn (Pt x y) (Rect r) = true ->
      PIn (Pt x y) (image.Rect 1 1 3 3) = false ->
      NRGBAAt r x y = Some red.
Proof.
  eexists. split; [vm_compute; reflexivity|]. split; [vm_compute; reflexivity|].
  intros x y Hin Hout.
  assert ((x = 0 \/ x = 1 \/ x = 2 \/ x = 3) /\ (y = 0 \/ y = 1 \/ y = 2 \/ y = 3))
    as [Hx Hy].
  { apply PIn_inside in Hin. unfold inside in Hin. cbn in Hin. lia. }
  destruct Hx as [->|[->|[->| ->]]]; destruct Hy as [->|[->|[->| ->]]];
    first [ discriminate Hout | vm_compute; reflexivity ].
Qed.

(** ** CropTop *)

(** An image of [w * h] pixels whose top-left corner is at [(x0, y0)]. *)
Definition solid_at (x0 y0 w h : Z) (c : color.NRGBA) : Image :=
  {| Bounds := image.Rect x0 y0 (x0 + w) (y0 + h); At := fun _ _ => c |}.

(** C7, at an image whose bounds start at the row 10: the rectangle [CropTop]
    computes starts at the row 0, not at the top row 10 of the image, so that
    it lies above the image and [Crop] returns an empty buffer; the
    rectangle of [CropCenter] does start from the bounds of the image. *)
Theorem C7_CropTop_not_at_top_of_offset_image :
  Y (Min (Bounds (solid_at 0 10 4 4 red))) = 10 /\
  CropTop_rect (solid_at 0 10 4 4 red) 4 2 = image.Rect 0 0 4 2 /\
  CropCenter_rect (solid_at 0 10 4 4 red) 4 2 = image.Rect 0 11 4 13 /\
  CropTop (solid_at 0 10 4 4 red) 4 2
  = Some {| Pix := []; Stride := 0; Rect := ZR |}.
Proof. vm_compute. repeat split. Qed.

(** On an image whose bounds start at the row 0, [CropTop] takes the rows at
    the top. *)
Lemma CropTop_at_origin :
  CropTop_rect (solid 4 4 red) 4 2 = image.Rect 0 0 4 2 /\
  exists r, CropTop (solid 4 4 red) 4 2 = Some r /\
            Rect r = image.Rect 0 0 4 2 /\ length (Pix r) = 32%nat.
Proof. split; [reflexivity|]. eexists. vm_compute. repeat split. Qed.

(** ** The clamp of the opacity *)




Lemma f1_val : f1 = S754_finite false 4503599627370496 (-52).
Proof. vm_compute. reflexivity. Qed.

Lemma clampOpacity_pos m e :
  clampOpacity (S754_finite false m e)
  = match SFcompare (S754_finite false m e)
            (S754_finite false 4503599627370496 (-52)) with
    | Some Lt => S754_finite false m e
    | _ => S754_finite false 4503599627370496 (-52)
    end.
Proof.
  unfold clampOpacity. rewrite f1_val. unfold f0, F64.Max, F64.Min.
  unfold F64.is_inf, F64.is_nan, F64.eqb, F64.ltb, SFeqb, SFltb, F64.signbit.
  cbn [orb andb SFcompare].
  destruct (e ?= -52)%Z; try reflexivity.
  destruct (Pos.compare_cont Eq m 4503599627370496); reflexivity.
Qed.





(** ** Crop *)

Lemma Intersect_cases r s :
  Intersect r s = ZR \/
  (Intersect r s
   = {| Min := Pt (Z.max (X (Min r)) (X (Min s))) (Z.max (Y (Min r)) (Y (Min s)));
        Max := Pt (Z.min (X (Max r)) (X (Max s))) (Z.min (Y (Max r)) (Y (Max s))) |} /\
   Z.max (X (Min r)) (X (Min s)) < Z.min (X (Max r)) (X (Max s)) /\
   Z.max (Y (Min r)) (Y (Min s)) < Z.min (Y (Max r)) (Y (Max s))).
Proof.
  unfold Intersect, Empty. cbn [Min Max X Y Pt].
  repeat match goal with
  | |- context [?a <? ?b] => destruct (Z.ltb_spec a b)
  | |- context [?a <=? ?b] => destruct (Z.leb_spec a b)
  end; cbn [orb]; auto; right; (split; [|lia]);
  do 2 f_equal; unfold Pt; f_equal; lia.
Qed.

(** C9: [Crop] clips to the overlap. For an image whose buffer can be
    allocated and any rectangle, it returns a buffer whose width and height
    are those of the intersection of the translated rectangle with the
    bounds of the source buffer, and which holds exactly that many pixels:
    nothing is padded to the size that was asked for. *)
Theorem C9_Crop_clips_to_overlap img rect :
  buffer_ok img ->
  exists r,
    Crop img rect = Some r /\
    Rect r = {| Min := Pt 0 0;
                Max := Pt (Dx (Intersect (RSub rect (Min (Bounds img)))
                                 (Rect (toNRGBA img))))
                          (Dy (Intersect (RSub rect (Min (Bounds img)))
                                 (Rect (toNRGBA img)))) |} /\
    Z.of_nat (length (Pix r))
    = 4 * Dx (Intersect (RSub rect (Min (Bounds img))) (Rect (toNRGBA img)))
        * Dy (Intersect (RSub rect (Min (Bounds img))) (Rect (toNRGBA img))).
Proof.
  intros (HW & HH & Hfit). unfold Crop, SubImage.
  set (I := Intersect (RSub rect (Min (Bounds img))) (Rect (toNRGBA img))).
  destruct (Intersect_cases (RSub rect (Min (Bounds img))) (Rect (toNRGBA img)))
    as [HZ|(HI & Hx & Hy)]; fold I in HZ || fold I in HI.
  { rewrite HZ. cbn [Empty ZR Min Max X Y Pt Z.leb Z.compare orb mbind option_bind].
    eexists. split; [reflexivity|]. split; reflexivity. }
  unfold toNRGBA in *. rewrite Clone_Rect in HI, Hx, Hy. cbn [Min Max X Y Pt] in *.
  set (W := Dx (Bounds img)) in *. set (H := Dy (Bounds img)) in *.
  set (x0 := Z.max (X (Min (RSub rect (Min (Bounds img))))) 0) in *.
  set (y0 := Z.max (Y (Min (RSub rect (Min (Bounds img))))) 0) in *.
  set (x1 := Z.min (X (Max (RSub rect (Min (Bounds img))))) W) in *.
  set (y1 := Z.min (Y (Max (RSub rect (Min (Bounds img))))) H) in *.
  assert (0 <= x0 < x1 /\ x1 <= W /\ 0 <= y0 < y1 /\ y1 <= H)
    as (Hx0 & Hx1 & Hy0 & Hy1) by lia.
  clearbody x0 y0 x1 y1.
  assert (Empty I = false) as ->
    by (rewrite HI; unfold Empty; cbn [Min Max X Y Pt]; lia).
  assert (Stride (Clone img) = 4 * W) as HS
    by (apply Clone_Stride; [lia|split; [|split]; assumption]).
  pose proof (offset_bounds W H x0 y0 0 ltac:(lia) ltac:(lia) ltac:(lia)) as Bd.
  assert (4 * W <= 4 * W * H /\ 4 * H <= 4 * W * H) as [B1 B2] by nia.
  unfold GoInt.max_int in Hfit. change (2 ^ 63) with 9223372036854775808 in Hfit.
  assert (forall z, - 9223372036854775808 <= z <= 9223372036854775807 ->
                    GoInt.wrap z = z) as Hw
    by (intros; apply wrap_id; unfold GoInt.in_range, GoInt.min_int, GoInt.max_int; lia).
  assert (PixOffset (Clone img) (X (Min I)) (Y (Min I)) = y0 * (4 * W) + 4 * x0) as ->.
  { unfold PixOffset. rewrite Clone_Rect, HS, HI. cbn [Min Max X Y Pt].
    unfold GoInt.sub, GoInt.mul, GoInt.add. rewrite !Z.sub_0_r.
    rewrite !(Hw x0), !(Hw y0) by lia.
    rewrite (Hw (y0 * (4 * W))), (Hw (x0 * 4)) by lia. rewrite Hw by lia. lia. }
  unfold slice_from. rewrite buffer_length by assumption. fold W H.
  destruct (Z.leb_spec 0 (y0 * (4 * W) + 4 * x0)); [|lia].
  destruct (Z.leb_spec (y0 * (4 * W) + 4 * x0) (4 * W * H)); [|lia].
  cbn [andb mbind option_bind]. eexists. split; [reflexivity|].
  assert (Dx I = x1 - x0 /\ Dy I = y1 - y0) as [HDx HDy].
  { rewrite HI. unfold Dx, Dy, GoInt.sub. cbn [Min Max X Y Pt].
    split; apply Hw; lia. }
  split.
  - rewrite Clone_Rect. reflexivity.
  - rewrite buffer_length; cbn [image_of_NRGBA Bounds Rect]; rewrite ?HDx, ?HDy; lia.
Qed.

Lemma C9_witness :
  buffer_ok (solid 4 4 red) /\
  exists r,
    Crop (solid 4 4 red) (image.Rect 2 2 7 7) = Some r /\
    Rect r = {| Min := Pt 0 0;
                Max := Pt (Dx (Intersect
                                 (RSub (image.Rect 2 2 7 7) (Min (Bounds (solid 4 4 red))))
                                 (Rect (toNRGBA (solid 4 4 red)))))
                          (Dy (Intersect
                                 (RSub (image.Rect 2 2 7 7) (Min (Bounds (solid 4 4 red))))
                                 (Rect (toNRGBA (solid 4 4 red))))) |} /\
    Z.of_nat (length (Pix r))
    = 4 * Dx (Intersect (RSub (image.Rect 2 2 7 7) (Min (Bounds (solid 4 4 red))))
                (Rect (toNRGBA (solid 4 4 red))))
        * Dy (Intersect (RSub (image.Rect 2 2 7 7) (Min (Bounds (solid 4 4 red))))
                (Rect (toNRGBA (solid 4 4 red)))).
Proof.
  split; [apply buffer_ok_solid; vm_compute; intuition discriminate|].
  apply (C9_Crop_clips_to_overlap (solid 4 4 red) (image.Rect 2 2 7 7)).
  apply buffer_ok_solid; vm_compute; intuition discriminate.
Defined.

(** The crop of the witness: 5x5 pixels were asked for, 2x2 are returned. *)
Lemma Crop_partial_overlap_example :
  Crop (solid 4 4 red) (image.Rect 2 2 7 7)
  = Some {| Pix := mjoin (replicate 4 (color.bytes red));
            Stride := 8; Rect := image.Rect 0 0 2 2 |}.
Proof. vm_compute. reflexivity. Qed.

(** ** Arithmetic on the floats of bytes *)

Abbreviation F := float64_of_uint8.

Lemma f0_mul_byte b : (f0 * F b)%f64 = f0.
Proof. destruct b; vm_compute; reflexivity. Qed.

Lemma byte_mul_f0 b : (F b * f0)%f64 = f0.
Proof. destruct b; vm_compute; reflexivity. Qed.

Lemma byte_mul_f1 b : (F b * f1)%f64 = F b.
Proof. destruct b; vm_compute; reflexivity. Qed.

Lemma byte_add_f0 b : (F b + f0)%f64 = F b.
Proof. destruct b; vm_compute; reflexivity. Qed.


Lemma uint8_of_byte cv b : uint8_of_float64 cv (F b) = b.
Proof. destruct b; vm_compute; reflexivity. Qed.

Lemma mul_nan_r x : (x * S754_nan)%f64 = S754_nan.
Proof. destruct x; reflexivity. Qed.

Lemma add_nan_nan : (S754_nan + S754_nan)%f64 = S754_nan.
Proof. reflexivity. Qed.

Lemma uint8_of_nan cv : uint8_of_float64 cv S754_nan = cv S754_nan.
Proof. reflexivity. Qed.

(** *** An opacity of 1 over an opaque source *)





(** *** An opacity of 0 *)

Lemma clampOpacity_zero s : clampOpacity (S754_zero s) = f0.
Proof. destruct s; vm_compute; reflexivity. Qed.

Lemma coef2_zero a2 : (f0 * F a2 / f255)%f64 = f0.
Proof. rewrite f0_mul_byte. vm_compute. reflexivity. Qed.

Lemma coef1_zero a1 : a1 <> x00 -> blendCoefs f0 (F a1) f0 = (f1, f0).
Proof. intros Hne. destruct a1; try congruence; vm_compute; reflexivity. Qed.

Lemma blendCoefs_zero a1 a2 :
  a1 <> x00 -> blendCoefs f0 (F a1) (F a2) = (f1, f0).
Proof.
  intros Hne. rewrite <- (coef1_zero a1 Hne). unfold blendCoefs.
  rewrite coef2_zero. replace (f0 * f0 / f255)%f64 with f0 by (vm_compute; reflexivity).
  reflexivity.
Qed.

Lemma blendCoefs_zero_transparent a2 :
  blendCoefs f0 (F x00) (F a2) = (S754_nan, S754_nan).
Proof. unfold blendCoefs. rewrite coef2_zero. vm_compute. reflexivity. Qed.

Lemma blendAlpha_zero a1 a2 : blendAlpha f0 (F a1) (F a2) = F a1.
Proof.
  unfold blendAlpha. rewrite byte_mul_f0.
  destruct a1; vm_compute; reflexivity.
Qed.

Lemma blend_pixel_zero cv d s :
  color.A d <> x00 -> blend_pixel cv f0 d s = d.
Proof.
  intros Hd. unfold blend_pixel. rewrite blendCoefs_zero by assumption.
  rewrite blendAlpha_zero, !byte_mul_f0, !byte_mul_f1, !byte_add_f0,
    !uint8_of_byte.
  destruct d; reflexivity.
Qed.

Lemma blend_pixel_zero_transparent cv d s :
  color.A d = x00 ->
  blend_pixel cv f0 d s
  = {| color.R := cv S754_nan; color.G := cv S754_nan; color.B := cv S754_nan;
       color.A := x00 |}.
Proof.
  intros Hd. unfold blend_pixel. rewrite Hd, blendCoefs_zero_transparent.
  rewrite blendAlpha_zero, !mul_nan_r, add_nan_nan, uint8_of_nan, uint8_of_byte.
  reflexivity.
Qed.

(** ** Overlay at the opacities 1 and 0 *)



(** A background of one pixel, transparent and not black, and an overlay of
    one pixel over it. *)
Definition faint : color.NRGBA := rgba x0a x14 x1e x00.

(** C2 fails where the background is transparent: with the conversion of
    the gc compiler on amd64 the colour (10,20,30,0) of the background
    becomes (0,0,0,0) under an opacity of 0. *)
Lemma C2_counterexample :
  exists r,
    Overlay uint8_amd64 (solid 1 1 faint) (solid 1 1 blue) (Pt 0 0) f0 = Some r /\
    inside 0 0 (Intersect (Rect (Clone (solid 1 1 faint)))
                  (pasteBounds (solid 1 1 faint) (solid 1 1 blue) (Pt 0 0))) /\
    NRGBAAt (Clone (solid 1 1 faint)) 0 0 = Some (rgba x0a x14 x1e x00) /\
    NRGBAAt r 0 0 = Some (rgba x00 x00 x00 x00) /\
    NRGBAAt r 0 0 <> NRGBAAt (Clone (solid 1 1 faint)) 0 0.
Proof.
  eexists. split; [vm_compute; reflexivity|].
  split; [vm_compute; intuition discriminate|].
  split; [vm_compute; reflexivity|].
  split; [vm_compute; reflexivity|].
  vm_compute. discriminate.
Qed.

(** C2, amended: under an opacity of 0 (of either sign) every pixel of the
    overlap region keeps its alpha, and keeps all four channels when its
    alpha in the background is not 0; where that alpha is 0 the three colour
    channels become what the conversion of a NaN to [uint8] gives. *)
Theorem C2_Overlay_zero_opacity cv bg img pos sign :
  buffer_ok bg -> buffer_ok img ->
  exists r,
    Overlay cv bg img pos (S754_zero sign) = Some r /\
    forall x y,
      inside x y (Intersect (Rect (Clone bg)) (pasteBounds bg img pos)) ->
      (color.A <$> NRGBAAt r x y) = Some (color.A (pixel_of bg x y)) /\
      (color.A (pixel_of bg x y) <> x00 ->
       NRGBAAt r x y = Some (pixel_of bg x y)) /\
      (color.A (pixel_of bg x y) = x00 ->
       NRGBAAt r x y
       = Some {| color.R := cv S754_nan; color.G := cv S754_nan;
                 color.B := cv S754_nan; color.A := x00 |}).
Proof.
  intros Hbg Himg.
  destruct (Overlay_spec cv bg img pos (S754_zero sign) Hbg Himg)
    as (r & Hrun & _ & _ & Hpix).
  exists r. split; [exact Hrun|]. intros x y HI.
  pose proof HI as HI'. apply inside_Intersect in HI' as [Hdst _].
  rewrite (Hpix x y Hdst). apply PIn_inside in HI. rewrite HI.
  rewrite clampOpacity_zero.
  destruct (Byte.byte_eq_dec (color.A (pixel_of bg x y)) x00) as [Hz|Hnz].
  - rewrite blend_pixel_zero_transparent by assumption. cbn. rewrite Hz.
    split; [reflexivity|]. split; [congruence|reflexivity].
  - rewrite blend_pixel_zero by assumption.
    split; [reflexivity|]. split; [reflexivity|congruence].
Qed.

Lemma C2_witness :
  buffer_ok (solid 4 4 red) /\ buffer_ok (solid 2 2 blue) /\
  exists r,
    Overlay uint8_amd64 (solid 4 4 red) (solid 2 2 blue) (Pt 1 1) (S754_zero false)
    = Some r /\
    forall x y,
      inside x y (Intersect (Rect (Clone (solid 4 4 red)))
                    (pasteBounds (solid 4 4 red) (solid 2 2 blue) (Pt 1 1))) ->
      (color.A <$> NRGBAAt r x y) = Some (color.A (pixel_of (solid 4 4 red) x y)) /\
      (color.A (pixel_of (solid 4 4 red) x y) <> x00 ->
       NRGBAAt r x y = Some (pixel_of (solid 4 4 red) x y)) /\
      (color.A (pixel_of (solid 4 4 red) x y) = x00 ->
       NRGBAAt r x y
       = Some {| color.R := uint8_amd64 S754_nan; color.G := uint8_amd64 S754_nan;
                 color.B := uint8_amd64 S754_nan; color.A := x00 |}).
Proof.
  split; [apply buffer_ok_solid; vm_compute; intuition discriminate|].
  split; [apply buffer_ok_solid; vm_compute; intuition discriminate|].
  apply (C2_Overlay_zero_opacity uint8_amd64 (solid 4 4 red) (solid 2 2 blue)
           (Pt 1 1) false);
    apply buffer_ok_solid; vm_compute; intuition discriminate.
Defined.

(** ** The division by [coefSum] *)

(** [coefSum], as [Overlay] computes it before it divides by it. *)
Definition coefSum (opacity a1 a2 : float64) : float64 :=
  let coef2 := (opacity * a2 / f255)%f64 in
  let coef1 := ((f1 - coef2) * a1 / f255)%f64 in
  (coef1 + coef2)%f64.

Definition is_zero (f : float64) : bool :=
  match f with S754_zero _ => true | _ => false end.

Lemma coefSum_zero_nan opacity a2 :
  is_zero (opacity * a2 / f255)%f64 = true ->
  is_zero (coefSum opacity (F x00) a2) = true /\
  blendCoefs opacity (F x00) a2 = (S754_nan, S754_nan).
Proof.
  unfold coefSum, blendCoefs.
  destruct (opacity * a2 / f255)%f64 as [sg| | |]; try discriminate.
  intros _. destruct sg; vm_compute; split; reflexivity.
Qed.

Lemma blend_pixel_coefSum_zero cv opacity d s :
  color.A d = x00 ->
  is_zero (opacity * F (color.A s) / f255)%f64 = true ->
  blend_pixel cv opacity d s
  = {| color.R := cv S754_nan; color.G := cv S754_nan; color.B := cv S754_nan;
       color.A := uint8_of_float64 cv (blendAlpha opacity (F x00) (F (color.A s))) |}.
Proof.
  intros Hd Hz. unfold blend_pixel. rewrite Hd.
  destruct (coefSum_zero_nan opacity (F (color.A s)) Hz) as [_ ->].
  rewrite !mul_nan_r, add_nan_nan, uint8_of_nan. reflexivity.
Qed.

(** C1 fails: at an opacity of 0 over a transparent pixel [coefSum] is zero,
    the division is carried out and gives two NaN coefficients, and the
    colour channels are sums of NaN; they come out as whatever the
    conversion to [uint8] makes of a NaN, 255 under a conversion that gives
    255, not as a 0 that the code would have set. *)
Lemma C1_counterexample :
  is_zero (coefSum (clampOpacity f0) (F x00) (F xff)) = true /\
  blendCoefs (clampOpacity f0) (F x00) (F xff) = (S754_nan, S754_nan) /\
  (F x0a * S754_nan + F x00 * S754_nan)%f64 = S754_nan /\
  exists r,
    Overlay (fun _ => xff) (solid 1 1 faint) (solid 1 1 blue) (Pt 0 0) f0 = Some r /\
    NRGBAAt r 0 0 = Some (rgba xff xff xff x00).
Proof.
  split; [vm_compute; reflexivity|]. split; [vm_compute; reflexivity|].
  split; [vm_compute; reflexivity|].
  eexists. split; [vm_compute; reflexivity|]. vm_compute. reflexivity.
Qed.

(** C1, amended: at a pixel of the intersection whose alpha in the
    background is 0 and for which [opacity * a2 / 255] is a zero, [coefSum]
    is zero and [Overlay] divides by it all the same: the two coefficients
    are NaN and each of the three colour channels written is the conversion
    of a NaN to [uint8], which the language leaves to the implementation. *)
Theorem C1_Overlay_divides_by_zero_coefSum cv bg img pos opacity x y :
  buffer_ok bg -> buffer_ok img ->
  inside x y (Intersect (Rect (Clone bg)) (pasteBounds bg img pos)) ->
  color.A (pixel_of bg x y) = x00 ->
  is_zero (clampOpacity opacity * F (color.A (pasted_pixel bg img pos x y))
           / f255)%f64 = true ->
  is_zero (coefSum (clampOpacity opacity) (F x00)
             (F (color.A (pasted_pixel bg img pos x y)))) = true /\
  blendCoefs (clampOpacity opacity) (F x00)
    (F (color.A (pasted_pixel bg img pos x y))) = (S754_nan, S754_nan) /\
  exists r,
    Overlay cv bg img pos opacity = Some r /\
    (color.R <$> NRGBAAt r x y) = Some (cv S754_nan) /\
    (color.G <$> NRGBAAt r x y) = Some (cv S754_nan) /\
    (color.B <$> NRGBAAt r x y) = Some (cv S754_nan).
Proof.
  intros Hbg Himg HI Ha1 Hz.
  destruct (coefSum_zero_nan _ _ Hz) as [Hsum Hcoefs].
  split; [exact Hsum|]. split; [exact Hcoefs|].
  destruct (Overlay_spec cv bg img pos opacity Hbg Himg) as (r & Hrun & _ & _ & Hpix).
  exists r. split; [exact Hrun|].
  pose proof HI as HI'. apply inside_Intersect in HI' as [Hdst _].
  rewrite (Hpix x y Hdst). apply PIn_inside in HI. rewrite HI.
  rewrite blend_pixel_coefSum_zero by assumption. repeat split.
Qed.

Lemma C1_witness :
  buffer_ok (solid 1 1 faint) /\ buffer_ok (solid 1 1 blue) /\
  inside 0 0 (Intersect (Rect (Clone (solid 1 1 faint)))
                (pasteBounds (solid 1 1 faint) (solid 1 1 blue) (Pt 0 0))) /\
  color.A (pixel_of (solid 1 1 faint) 0 0) = x00 /\
  is_zero (clampOpacity f0
           * F (color.A (pasted_pixel (solid 1 1 faint) (solid 1 1 blue) (Pt 0 0) 0 0))
           / f255)%f64 = true /\
  is_zero (coefSum (clampOpacity f0) (F x00)
             (F (color.A (pasted_pixel (solid 1 1 faint) (solid 1 1 blue) (Pt 0 0) 0 0))))
  = true /\
  blendCoefs (clampOpacity f0) (F x00)
    (F (color.A (pasted_pixel (solid 1 1 faint) (solid 1 1 blue) (Pt 0 0) 0 0)))
  = (S754_nan, S754_nan) /\
  exists r,
    Overlay uint8_amd64 (solid 1 1 faint) (solid 1 1 blue) (Pt 0 0) f0 = Some r /\
    (color.R <$> NRGBAAt r 0 0) = Some (uint8_amd64 S754_nan) /\
    (color.G <$> NRGBAAt r 0 0) = Some (uint8_amd64 S754_nan) /\
    (color.B <$> NRGBAAt r 0 0) = Some (uint8_amd64 S754_nan).
Proof.
  split; [apply buffer_ok_solid; vm_compute; intuition discriminate|].
  split; [apply buffer_ok_solid; vm_compute; intuition discriminate|].
  split; [vm_compute; intuition discriminate|].
  split; [reflexivity|]. split; [vm_compute; reflexivity|].
  apply (C1_Overlay_divides_by_zero_coefSum uint8_amd64 (solid 1 1 faint)
           (solid 1 1 blue) (Pt 0 0) f0 0 0).
  - apply buffer_ok_solid; vm_compute; intuition discriminate.
  - apply buffer_ok_solid; vm_compute; intuition discriminate.
  - vm_compute; intuition discriminate.
  - reflexivity.
  - vm_compute; reflexivity.
Defined.

(** ** Rounding to binary64

    What [binary_round_aux] returns for a mantissa that is not negative: the
    facts the bound on the alpha of [Overlay] needs. *)




















(** ** The alpha of [Overlay] *)

























(** * Crop, CropCenter, CropTop: the pixels *)

Lemma index_drop {T} (s : list T) (n i : Z) :
  0 <= n -> 0 <= i -> index (drop (Z.to_nat n) s) i = index s (n + i).
Proof.
  intros Hn Hi. unfold index.
  destruct (Z.leb_spec 0 i); [|lia]. destruct (Z.leb_spec 0 (n + i)); [|lia].
  rewrite lookup_drop. f_equal. lia.
Qed.

Lemma int_wrap_id z :
  - 9223372036854775808 <= z <= 9223372036854775807 -> GoInt.wrap z = z.
Proof.
  intros H. apply wrap_id.
  unfold GoInt.in_range, GoInt.min_int, GoInt.max_int.
  change (2 ^ 63) with 9223372036854775808. lia.
Qed.

Lemma max_int_val : GoInt.max_int = 9223372036854775807.
Proof. reflexivity. Qed.

(** Reading the pixel [(x, y)] of the sub-image [[x0, x1) * [y0, y1)] of a
    buffer of [W * H] pixels: it is the pixel [(x, y)] of the buffer. *)
Lemma NRGBAAt_window pix W H x0 y0 x1 y1 x y col :
  4 * W * H <= GoInt.max_int ->
  0 <= x0 -> x1 <= W -> 0 <= y0 -> y1 <= H ->
  x0 <= x < x1 -> y0 <= y < y1 ->
  (forall c, 0 <= c < 4 ->
     index pix (y * (4 * W) + 4 * x + c) = index (color.bytes col) c) ->
  NRGBAAt {| Pix := drop (Z.to_nat (y0 * (4 * W) + 4 * x0)) pix;
             Stride := 4 * W;
             Rect := {| Min := Pt x0 y0; Max := Pt x1 y1 |} |} x y
  = Some col.
Proof.
  intros Hfit Hx0 Hx1 Hy0 Hy1 Hx Hy Hpix. rewrite max_int_val in Hfit.
  unfold NRGBAAt, PixOffset, PIn. cbn [Pix Stride Rect Min Max X Y Pt].
  destruct (Z.leb_spec x0 x); [|lia]. destruct (Z.ltb_spec x x1); [|lia].
  destruct (Z.leb_spec y0 y); [|lia]. destruct (Z.ltb_spec y y1); [|lia].
  cbn [andb negb].
  pose proof (offset_bounds W H x y 0 ltac:(lia) ltac:(lia) ltac:(lia)) as B.
  pose proof (offset_bounds W H x0 y0 0 ltac:(lia) ltac:(lia) ltac:(lia)) as B0.
  pose proof (offset_bounds W H (x - x0) (y - y0) 0 ltac:(lia) ltac:(lia) ltac:(lia)) as B1.
  assert (4 * W <= 4 * W * H /\ 4 * H <= 4 * W * H) as [B2 B3] by nia.
  unfold GoInt.sub, GoInt.mul, GoInt.add.
  rewrite (int_wrap_id (y - y0)), (int_wrap_id (x - x0)) by lia.
  rewrite (int_wrap_id ((y - y0) * (4 * W))), (int_wrap_id ((x - x0) * 4)) by lia.
  rewrite (int_wrap_id ((y - y0) * (4 * W) + (x - x0) * 4)) by lia.
  set (k := (y - y0) * (4 * W) + (x - x0) * 4).
  replace k with (k + 0) at 1 by lia.
  rewrite !index_drop by lia.
  replace (y0 * (4 * W) + 4 * x0 + (k + 0)) with (y * (4 * W) + 4 * x + 0)
    by (subst k; lia).
  replace (y0 * (4 * W) + 4 * x0 + (k + 1)) with (y * (4 * W) + 4 * x + 1)
    by (subst k; lia).
  replace (y0 * (4 * W) + 4 * x0 + (k + 2)) with (y * (4 * W) + 4 * x + 2)
    by (subst k; lia).
  replace (y0 * (4 * W) + 4 * x0 + (k + 3)) with (y * (4 * W) + 4 * x + 3)
    by (subst k; lia).
  rewrite !Hpix by lia. destruct col; reflexivity.
Qed.

(** The part of the source buffer that [Crop] copies: the rectangle,
    translated to the buffer's coordinates and clipped to it by [SubImage]. *)
Definition cropped (img : Image) (rect : Rectangle) : Rectangle :=
  Intersect (RSub rect (Min (Bounds img))) (Rect (toNRGBA img)).

(** What [Crop] computes: a buffer at the origin, of the size of the clipped
    rectangle, that holds the pixels of the image in that rectangle. *)
Lemma Crop_spec img rect :
  buffer_ok img ->
  exists r,
    Crop img rect = Some r /\
    Rect r = {| Min := Pt 0 0;
                Max := Pt (Dx (cropped img rect)) (Dy (cropped img rect)) |} /\
    0 <= Dx (cropped img rect) /\ 0 <= Dy (cropped img rect) /\
    forall x y,
      0 <= x < Dx (cropped img rect) -> 0 <= y < Dy (cropped img rect) ->
      NRGBAAt r x y
      = Some (pixel_of img (X (Min (cropped img rect)) + x)
                           (Y (Min (cropped img rect)) + y)).
Proof.
  intros Hok. pose proof Hok as (HW & HH & Hfit). unfold Crop, SubImage, cropped.
  set (I := Intersect (RSub rect (Min (Bounds img))) (Rect (toNRGBA img))).
  destruct (Intersect_cases (RSub rect (Min (Bounds img))) (Rect (toNRGBA img)))
    as [HZ|(HI & Hx & Hy)]; fold I in HZ || fold I in HI.
  { rewrite HZ. cbn [Empty ZR Min Max X Y Pt Z.leb Z.compare orb mbind option_bind].
    eexists. split; [reflexivity|]. split; [reflexivity|].
    split; [discriminate|]. split; [discriminate|].
    intros x y Hx. assert (Dx ZR = 0) as E by (vm_compute; reflexivity).
    rewrite E in Hx. lia. }
  unfold toNRGBA in *. rewrite Clone_Rect in HI, Hx, Hy. cbn [Min Max X Y Pt] in *.
  set (W := Dx (Bounds img)) in *. set (H := Dy (Bounds img)) in *.
  set (x0 := Z.max (X (Min (RSub rect (Min (Bounds img))))) 0) in *.
  set (y0 := Z.max (Y (Min (RSub rect (Min (Bounds img))))) 0) in *.
  set (x1 := Z.min (X (Max (RSub rect (Min (Bounds img))))) W) in *.
  set (y1 := Z.min (Y (Max (RSub rect (Min (Bounds img))))) H) in *.
  assert (0 <= x0 < x1 /\ x1 <= W /\ 0 <= y0 < y1 /\ y1 <= H)
    as (Hx0 & Hx1 & Hy0 & Hy1) by lia.
  clearbody x0 y0 x1 y1.
  assert (Empty I = false) as ->
    by (rewrite HI; unfold Empty; cbn [Min Max X Y Pt]; lia).
  assert (Stride (Clone img) = 4 * W) as HS
    by (apply Clone_Stride; [lia|exact Hok]).
  pose proof (offset_bounds W H x0 y0 0 ltac:(lia) ltac:(lia) ltac:(lia)) as Bd.
  assert (4 * W <= 4 * W * H /\ 4 * H <= 4 * W * H) as [B1 B2] by nia.
  rewrite max_int_val in Hfit.
  assert (PixOffset (Clone img) (X (Min I)) (Y (Min I)) = y0 * (4 * W) + 4 * x0) as ->.
  { unfold PixOffset. rewrite Clone_Rect, HS, HI. cbn [Min Max X Y Pt].
    unfold GoInt.sub, GoInt.mul, GoInt.add. rewrite !Z.sub_0_r.
    rewrite !(int_wrap_id x0), !(int_wrap_id y0) by lia.
    rewrite (int_wrap_id (y0 * (4 * W))), (int_wrap_id (x0 * 4)) by lia.
    rewrite int_wrap_id by lia. lia. }
  unfold slice_from. rewrite buffer_length by assumption. fold W H.
  destruct (Z.leb_spec 0 (y0 * (4 * W) + 4 * x0)); [|lia].
  destruct (Z.leb_spec (y0 * (4 * W) + 4 * x0) (4 * W * H)); [|lia].
  cbn [andb mbind option_bind]. eexists. split; [reflexivity|].
  assert (Dx I = x1 - x0 /\ Dy I = y1 - y0) as [HDx HDy].
  { rewrite HI. unfold Dx, Dy, GoInt.sub. cbn [Min Max X Y Pt].
    split; apply int_wrap_id; lia. }
  set (sub := {| Pix := drop (Z.to_nat (y0 * (4 * W) + 4 * x0)) (Pix (Clone img));
                 Stride := Stride (Clone img); Rect := I |}).
  assert (buffer_ok (image_of_NRGBA sub)) as Hsub.
  { unfold buffer_ok. cbn [image_of_NRGBA Bounds sub Rect]. rewrite HDx, HDy.
    split; [lia|]. split; [lia|]. rewrite max_int_val.
    assert ((x1 - x0) * (y1 - y0) <= W * H)
      by (apply Z.mul_le_mono_nonneg; lia).
    lia. }
  split; [rewrite Clone_Rect; reflexivity|].
  split; [lia|]. split; [lia|].
  intros x y Hx' Hy'. rewrite HDx in Hx'. rewrite HDy in Hy'.
  rewrite NRGBAAt_Clone; [|exact Hsub|].
  2:{ rewrite Clone_Rect. unfold inside.
      cbn [image_of_NRGBA Bounds sub Rect Min Max X Y Pt].
      rewrite HDx, HDy. lia. }
  f_equal. unfold pixel_of at 1.
  cbn [image_of_NRGBA Bounds At sub Rect]. rewrite HI. cbn [Min Max X Y Pt].
  unfold GoInt.add at 1 2. rewrite !int_wrap_id by lia.
  fold sub. unfold sub. rewrite HS, HI.
  rewrite (NRGBAAt_window (Pix (Clone img)) W H x0 y0 x1 y1 (x0 + x) (y0 + y)
             (pixel_of img (x0 + x) (y0 + y))); try lia.
  - reflexivity.
  - rewrite max_int_val. lia.
  - intros c Hc. apply Clone_index; fold W; fold H; lia.
Qed.

(** The bounds of the image are a well-formed rectangle of [int]
    coordinates, as [image.Rectangle] asks of the bounds of an image. *)
Definition bounds_ok (img : Image) : Prop :=
  GoInt.in_range (X (Min (Bounds img))) /\ GoInt.in_range (Y (Min (Bounds img))) /\
  GoInt.in_range (X (Max (Bounds img))) /\ GoInt.in_range (Y (Max (Bounds img))) /\
  X (Min (Bounds img)) <= X (Max (Bounds img)) /\
  Y (Min (Bounds img)) <= Y (Max (Bounds img)).

Lemma in_range_val z :
  GoInt.in_range z <-> - 9223372036854775808 <= z <= 9223372036854775807.
Proof.
  unfold GoInt.in_range, GoInt.min_int, GoInt.max_int.
  change (2 ^ 63) with 9223372036854775808. lia.
Qed.

Lemma wrap_sub_nonneg a b :
  GoInt.in_range a -> GoInt.in_range b -> b <= a -> 0 <= GoInt.wrap (a - b) ->
  GoInt.wrap (a - b) = a - b.
Proof.
  rewrite !in_range_val. intros Ha Hb Hle.
  destruct (Z_le_gt_dec (a - b) 9223372036854775807) as [Hs|Hs].
  - intros _. apply int_wrap_id. lia.
  - unfold GoInt.wrap. change (2 ^ 63) with 9223372036854775808.
    change (2 ^ 64) with 18446744073709551616.
    replace (a - b + 9223372036854775808)
      with (a - b - 9223372036854775808 + 1 * 18446744073709551616) by lia.
    rewrite Z.mod_add, Z.mod_small by lia. lia.
Qed.

(** The sizes of well-formed bounds whose buffer can be allocated are the
    exact differences of the coordinates. *)
Lemma Dx_exact img :
  bounds_ok img -> buffer_ok img ->
  Dx (Bounds img) = X (Max (Bounds img)) - X (Min (Bounds img)).
Proof.
  intros (H1 & H2 & H3 & H4 & H5 & H6) (HW & _).
  apply wrap_sub_nonneg; assumption.
Qed.

Lemma Dy_exact img :
  bounds_ok img -> buffer_ok img ->
  Dy (Bounds img) = Y (Max (Bounds img)) - Y (Min (Bounds img)).
Proof.
  intros (H1 & H2 & H3 & H4 & H5 & H6) (_ & HH & _).
  apply wrap_sub_nonneg; assumption.
Qed.

Lemma half_spec n : 2 * (n / 2) <= n < 2 * (n / 2) + 2.
Proof.
  pose proof (Z.div_mod n 2 ltac:(lia)). pose proof (Z.mod_pos_bound n 2 ltac:(lia)).
  lia.
Qed.

Ltac range_facts :=
  unfold GoInt.in_range, GoInt.min_int, GoInt.max_int in *;
  change (2 ^ 63) with 9223372036854775808 in *.

(** Removes the wrap-around of the operations whose exact result is an
    [int], the innermost first. *)
Ltac wrap_simpl :=
  repeat match goal with
  | |- context [GoInt.wrap ?z] => rewrite (int_wrap_id z) by lia
  end.

(** [Crop] of a rectangle that lies in the image: the rectangle is not
    clipped. *)
Lemma Crop_within img a b w h :
  buffer_ok img -> bounds_ok img ->
  0 <= a -> 0 <= b -> 0 < w -> 0 < h ->
  a + w <= Dx (Bounds img) -> b + h <= Dy (Bounds img) ->
  exists r,
    Crop img {| Min := Pt (X (Min (Bounds img)) + a) (Y (Min (Bounds img)) + b);
                Max := Pt (X (Min (Bounds img)) + a + w)
                          (Y (Min (Bounds img)) + b + h) |} = Some r /\
    Rect r = {| Min := Pt 0 0; Max := Pt w h |} /\
    forall x y, 0 <= x < w -> 0 <= y < h ->
      NRGBAAt r x y = Some (pixel_of img (a + x) (b + y)).
Proof.
  intros Hok Hb Ha Hb' Hw Hh Haw Hbh.
  set (rect := {| Min := Pt (X (Min (Bounds img)) + a) (Y (Min (Bounds img)) + b);
                  Max := Pt (X (Min (Bounds img)) + a + w)
                            (Y (Min (Bounds img)) + b + h) |}).
  assert (cropped img rect = {| Min := Pt a b; Max := Pt (a + w) (b + h) |}) as HI.
  { pose proof (Dx_exact img Hb Hok) as EX. pose proof (Dy_exact img Hb Hok) as EY.
    destruct Hb as (H1 & H2 & H3 & H4 & H5 & H6).
    range_facts.
    pose proof (Dx_in_range (Bounds img)) as RW.
    pose proof (Dy_in_range (Bounds img)) as RH.
    range_facts.
    unfold cropped, toNRGBA. rewrite Clone_Rect.
    unfold Intersect, Empty, RSub, PSub, GoInt.sub, rect.
    cbn [Min Max X Y Pt]. wrap_simpl.
    repeat match goal with
    | |- context [?p <? ?q] => destruct (Z.ltb_spec p q)
    | |- context [?p <=? ?q] => destruct (Z.leb_spec p q)
    end; cbn [orb]; try lia.
    unfold Pt. do 2 f_equal; f_equal; lia. }
  destruct (Crop_spec img rect Hok) as (r & Hrun & HR & _ & _ & Hpix).
  rewrite HI in HR, Hpix.
  assert (Dx {| Min := Pt a b; Max := Pt (a + w) (b + h) |} = w /\
          Dy {| Min := Pt a b; Max := Pt (a + w) (b + h) |} = h) as [EW EH].
  { pose proof (Dx_in_range (Bounds img)) as RW.
    pose proof (Dy_in_range (Bounds img)) as RH.
    range_facts.
    unfold Dx, Dy, GoInt.sub. cbn [Min Max X Y Pt].
    rewrite !int_wrap_id by lia. lia. }
  rewrite EW, EH in HR, Hpix. cbn [Min X Y Pt] in Hpix.
  exists r. split; [exact Hrun|]. split; [exact HR|exact Hpix].
Qed.

(** The rectangle of [CropCenter] for a size that fits in the image: the
    rectangle of that size around the centre, the halves truncated. *)
Lemma CropCenter_rect_fits img w h :
  buffer_ok img -> bounds_ok img ->
  0 <= w <= Dx (Bounds img) -> 0 <= h <= Dy (Bounds img) ->
  CropCenter_rect img w h
  = {| Min := Pt (X (Min (Bounds img)) + (Dx (Bounds img) / 2 - w / 2))
                 (Y (Min (Bounds img)) + (Dy (Bounds img) / 2 - h / 2));
       Max := Pt (X (Min (Bounds img)) + (Dx (Bounds img) / 2 - w / 2) + w)
                 (Y (Min (Bounds img)) + (Dy (Bounds img) / 2 - h / 2) + h) |}.
Proof.
  intros Hok Hb Hw Hh.
  pose proof (Dx_exact img Hb Hok) as EX. pose proof (Dy_exact img Hb Hok) as EY.
  destruct Hb as (H1 & H2 & H3 & H4 & H5 & H6).
  range_facts.
  pose proof (Dx_in_range (Bounds img)) as RW.
  pose proof (Dy_in_range (Bounds img)) as RH.
  range_facts.
  unfold CropCenter_rect, image.Rect, GoInt.quo, GoInt.add, GoInt.sub.
  set (W := Dx (Bounds img)) in *. set (H := Dy (Bounds img)) in *.
  rewrite !Z.quot_div_nonneg by lia.
  pose proof (half_spec W). pose proof (half_spec w).
  pose proof (half_spec H). pose proof (half_spec h). wrap_simpl.
  repeat match goal with
  | |- context [?p <? ?q] => destruct (Z.ltb_spec p q)
  end; try lia.
  unfold Pt. do 2 f_equal; f_equal; lia.
Qed.

Lemma CropCenter_spec img w h :
  buffer_ok img -> bounds_ok img ->
  0 < w <= Dx (Bounds img) -> 0 < h <= Dy (Bounds img) ->
  exists r,
    CropCenter img w h = Some r /\
    Rect r = {| Min := Pt 0 0; Max := Pt w h |} /\
    forall x y, 0 <= x < w -> 0 <= y < h ->
      NRGBAAt r x y
      = Some (pixel_of img (Dx (Bounds img) / 2 - w / 2 + x)
                           (Dy (Bounds img) / 2 - h / 2 + y)).
Proof.
  intros Hok Hb Hw Hh. unfold CropCenter.
  rewrite CropCenter_rect_fits by (assumption || lia).
  pose proof (half_spec (Dx (Bounds img))). pose proof (half_spec w).
  pose proof (half_spec (Dy (Bounds img))). pose proof (half_spec h).
  apply Crop_within; try assumption; lia.
Qed.

(** The rectangle of [CropTop] for a width that fits in the image: it starts
    at the row 0, whatever the bounds of the image are. *)
Lemma CropTop_rect_fits img w h :
  buffer_ok img -> bounds_ok img ->
  0 <= w <= Dx (Bounds img) -> 0 <= h <= GoInt.max_int ->
  CropTop_rect img w h
  = {| Min := Pt (X (Min (Bounds img)) + (Dx (Bounds img) / 2 - w / 2)) 0;
       Max := Pt (X (Min (Bounds img)) + (Dx (Bounds img) / 2 - w / 2) + w) h |}.
Proof.
  intros Hok Hb Hw Hh. rewrite max_int_val in Hh.
  pose proof (Dx_exact img Hb Hok) as EX.
  destruct Hb as (H1 & H2 & H3 & H4 & H5 & H6).
  range_facts.
  pose proof (Dx_in_range (Bounds img)) as RW. range_facts.
  unfold CropTop_rect, image.Rect, GoInt.quo, GoInt.add, GoInt.sub.
  set (W := Dx (Bounds img)) in *.
  rewrite !Z.quot_div_nonneg by lia.
  pose proof (half_spec W). pose proof (half_spec w). wrap_simpl.
  repeat match goal with
  | |- context [?p <? ?q] => destruct (Z.ltb_spec p q)
  end; try lia.
  unfold Pt. do 2 f_equal; f_equal; lia.
Qed.

Lemma Rect_Max_Y x0 y0 x1 y1 : Y (Max (image.Rect x0 y0 x1 y1)) = Z.max y0 y1.
Proof.
  unfold image.Rect. destruct (x1 <? x0); destruct (Z.ltb_spec y1 y0);
    cbn [Max Y Pt]; lia.
Qed.

(** A rectangle that ends where the other starts, or above, does not meet
    it. *)
Lemma Intersect_above r s : Y (Max r) <= Y (Min s) -> Intersect r s = ZR.
Proof.
  intros H. unfold Intersect, Empty. cbn [Min Max X Y Pt].
  repeat match goal with
  | |- context [?p <? ?q] => destruct (Z.ltb_spec p q)
  | |- context [?p <=? ?q] => destruct (Z.leb_spec p q)
  end; cbn [orb]; try reflexivity; lia.
Qed.

(** * PasteCenter *)

Lemma wrap_add_wrap_l a b : GoInt.wrap (GoInt.wrap a + b) = GoInt.wrap (a + b).
Proof.
  unfold GoInt.wrap. f_equal.
  replace ((a + 2 ^ 63) mod 2 ^ 64 - 2 ^ 63 + b + 2 ^ 63)
    with ((a + 2 ^ 63) mod 2 ^ 64 + b) by lia.
  rewrite Zplus_mod_idemp_l. f_equal. lia.
Qed.

Lemma wrap_sub_wrap_l a b : GoInt.wrap (GoInt.wrap a - b) = GoInt.wrap (a - b).
Proof.
  replace (GoInt.wrap a - b) with (GoInt.wrap a + - b) by lia.
  rewrite wrap_add_wrap_l. reflexivity.
Qed.

(** Adding the half of a size to the origin, taking the half of another
    away and translating back by the origin gives the difference of the
    halves, whatever overflows on the way. *)
Lemma centre_offset m Q q :
  GoInt.wrap (GoInt.wrap (GoInt.wrap (m + Q) - q) - m) = GoInt.wrap (Q - q).
Proof.
  rewrite wrap_sub_wrap_l.
  replace (GoInt.wrap (m + Q) - q - m) with (GoInt.wrap (m + Q) - (q + m)) by lia.
  rewrite wrap_sub_wrap_l. f_equal. lia.
Qed.

(** The rectangle [PasteCenter] pastes to, in the coordinates of the
    result: the size of the image, around the centre of the background. *)
Definition centred (bg img : Image) : Rectangle :=
  let cx := Dx (Bounds bg) / 2 - Dx (Bounds img) / 2 in
  let cy := Dy (Bounds bg) / 2 - Dy (Bounds img) / 2 in
  {| Min := Pt cx cy;
     Max := Pt (cx + Dx (Bounds img)) (cy + Dy (Bounds img)) |}.

Lemma PasteCenter_bounds bg img :
  buffer_ok bg -> buffer_ok img ->
  pasteBounds bg img
    (Pt (X (Min (Bounds bg)) +i Dx (Bounds bg) /i 2 -i Dx (Bounds img) /i 2)
        (Y (Min (Bounds bg)) +i Dy (Bounds bg) /i 2 -i Dy (Bounds img) /i 2))
  = centred bg img.
Proof.
  intros (HW & HH & _) (Hw & Hh & _).
  pose proof (Dx_in_range (Bounds bg)) as R1.
  pose proof (Dy_in_range (Bounds bg)) as R2.
  pose proof (Dx_in_range (Bounds img)) as R3.
  pose proof (Dy_in_range (Bounds img)) as R4.
  range_facts.
  unfold pasteBounds, centred, PSub, PAdd, Size, toNRGBA.
  cbn [Min Max X Y Pt]. rewrite Clone_Dx, Clone_Dy.
  unfold GoInt.quo. rewrite !Z.quot_div_nonneg by lia.
  set (W := Dx (Bounds bg)) in *. set (H := Dy (Bounds bg)) in *.
  set (w := Dx (Bounds img)) in *. set (h := Dy (Bounds img)) in *.
  pose proof (half_spec W) as S1. pose proof (half_spec w) as S2.
  pose proof (half_spec H) as S3. pose proof (half_spec h) as S4.
  rewrite (int_wrap_id (W / 2)), (int_wrap_id (w / 2)),
    (int_wrap_id (H / 2)), (int_wrap_id (h / 2)) by lia.
  unfold GoInt.add, GoInt.sub. rewrite !centre_offset.
  rewrite (int_wrap_id (W / 2 - w / 2)), (int_wrap_id (H / 2 - h / 2)) by lia.
  rewrite (int_wrap_id (W / 2 - w / 2 + w)), (int_wrap_id (H / 2 - h / 2 + h)) by lia.
  reflexivity.
Qed.

Lemma PasteCenter_spec bg img :
  buffer_ok bg -> buffer_ok img ->
  exists r,
    PasteCenter bg img = Some r /\
    Rect r = Rect (Clone bg) /\
    forall x y, inside x y (Rect (Clone bg)) ->
      NRGBAAt r x y
      = Some (if PIn (Pt x y) (centred bg img)
              then pixel_of img (x - X (Min (centred bg img)))
                                (y - Y (Min (centred bg img)))
              else pixel_of bg x y).
Proof.
  intros Hbg Himg. unfold PasteCenter.
  set (pos := Pt _ _).
  destruct (Paste_spec bg img pos Hbg Himg) as (r & Hrun & HR & _ & Hpix).
  exists r. split; [exact Hrun|]. split; [exact HR|].
  intros x y Hin. rewrite (Hpix x y Hin). unfold pasted_pixel.
  unfold pos. rewrite PasteCenter_bounds by assumption.
  replace (PIn (Pt x y) (Intersect (Rect (Clone bg)) (centred bg img)))
    with (PIn (Pt x y) (centred bg img)); [reflexivity|].
  apply Bool.eq_iff_eq_true. rewrite !PIn_inside, inside_Intersect. tauto.
Qed.

(** * CropCenter after PasteCenter *)

Lemma CropCenter_PasteCenter_spec bg img :
  buffer_ok bg -> buffer_ok img ->
  0 < Dx (Bounds img) <= Dx (Bounds bg) ->
  0 < Dy (Bounds img) <= Dy (Bounds bg) ->
  exists p c,
    PasteCenter bg img = Some p /\
    CropCenter (image_of_NRGBA p) (Dx (Bounds img)) (Dy (Bounds img)) = Some c /\
    Rect c = Rect (Clone img) /\
    forall x y, inside x y (Rect (Clone img)) ->
      NRGBAAt c x y = Some (pixel_of img x y).
Proof.
  intros Hbg Himg Hw Hh.
  destruct (PasteCenter_spec bg img Hbg Himg) as (p & Hp & HR & Hpix).
  pose proof (Dx_in_range (Bounds bg)) as RW.
  pose proof (Dy_in_range (Bounds bg)) as RH.
  assert (Dx (Bounds (image_of_NRGBA p)) = Dx (Bounds bg) /\
          Dy (Bounds (image_of_NRGBA p)) = Dy (Bounds bg)) as [EW EH].
  { cbn [image_of_NRGBA Bounds]. rewrite HR. split; [apply Clone_Dx|apply Clone_Dy]. }
  assert (buffer_ok (image_of_NRGBA p)) as Hok
    by (unfold buffer_ok; rewrite EW, EH; exact Hbg).
  assert (bounds_ok (image_of_NRGBA p)) as Hb.
  { unfold bounds_ok. cbn [image_of_NRGBA Bounds]. rewrite HR, Clone_Rect.
    cbn [Min Max X Y Pt]. destruct Hbg as (? & ? & _).
    range_facts. lia. }
  destruct (CropCenter_spec (image_of_NRGBA p) (Dx (Bounds img)) (Dy (Bounds img))
              Hok Hb) as (c & Hc & HRc & Hcpix); [rewrite EW; lia|rewrite EH; lia|].
  exists p, c. split; [exact Hp|]. split; [exact Hc|].
  split; [rewrite HRc, Clone_Rect; reflexivity|].
  intros x y Hin. rewrite Clone_Rect in Hin. unfold inside in Hin.
  cbn [Min Max X Y Pt] in Hin.
  rewrite (Hcpix x y) by lia. f_equal. rewrite EW, EH.
  set (cx := Dx (Bounds bg) / 2 - Dx (Bounds img) / 2).
  set (cy := Dy (Bounds bg) / 2 - Dy (Bounds img) / 2).
  pose proof (half_spec (Dx (Bounds bg))). pose proof (half_spec (Dx (Bounds img))).
  pose proof (half_spec (Dy (Bounds bg))). pose proof (half_spec (Dy (Bounds img))).
  range_facts.
  unfold pixel_of at 1. cbn [image_of_NRGBA Bounds At]. rewrite HR, Clone_Rect.
  cbn [Min Max X Y Pt]. unfold GoInt.add.
  rewrite (int_wrap_id (0 + (cx + x))), (int_wrap_id (0 + (cy + y))) by lia.
  rewrite Hpix.
  2:{ rewrite Clone_Rect. unfold inside. cbn [Min Max X Y Pt]. lia. }
  assert (PIn (Pt (0 + (cx + x)) (0 + (cy + y))) (centred bg img) = true) as ->.
  { apply PIn_inside. unfold inside, centred. cbn [Min Max X Y Pt]. lia. }
  cbn [default]. unfold centred. cbn [Min X Y Pt]. fold cx cy.
  unfold id. f_equal; lia.
Qed.

(** * Overlay: opacities of 1 and more, transparent pixels *)


(** The clamped opacity, for an opacity that is not a NaN: zero or a finite
    positive number. *)
Lemma clampOpacity_sign opacity :
  F64.is_nan opacity = false ->
  clampOpacity opacity = S754_zero false \/
  exists m e, clampOpacity opacity = S754_finite false m e.
Proof.
  intros Hn.
  destruct opacity as [[]|[]| |[] m e]; try discriminate.
  - left. vm_compute. reflexivity.
  - left. vm_compute. reflexivity.
  - left. vm_compute. reflexivity.
  - right. exists 4503599627370496%positive, (-52). vm_compute. reflexivity.
  - left. unfold clampOpacity, F64.Max, F64.Min, f0, F64.is_inf, F64.is_nan,
      F64.eqb, F64.ltb, SFeqb, SFltb, F64.signbit.
    cbn [orb andb SFcompare]. rewrite f1_val. reflexivity.
  - right. rewrite clampOpacity_pos.
    destruct (SFcompare _ _) as [[| |]|]; eauto.
Qed.

Lemma F_x00 : F x00 = f0.
Proof. reflexivity. Qed.

Lemma mul_f0_r o :
  (o = S754_zero false \/ exists m e, o = S754_finite false m e) ->
  (o * f0)%f64 = f0 /\ (f0 * o)%f64 = f0.
Proof. intros [->|(m & e & ->)]; split; reflexivity. Qed.

(** The coefficients for a source pixel of alpha 0: 1 and 0. *)
Lemma blendCoefs_transparent o a1 :
  (o * f0)%f64 = f0 -> a1 <> x00 -> blendCoefs o (F a1) f0 = (f1, f0).
Proof.
  intros Ho Ha. unfold blendCoefs. rewrite Ho.
  destruct a1; try contradiction; vm_compute; reflexivity.
Qed.

Lemma blendAlpha_transparent o a1 :
  (f0 * o)%f64 = f0 -> blendAlpha o (F a1) f0 = F a1.
Proof.
  intros Ho. unfold blendAlpha. rewrite Ho.
  destruct a1; vm_compute; reflexivity.
Qed.

(** A source pixel of alpha 0 leaves a destination pixel whose alpha is not
    0 as it is. *)
Lemma blend_pixel_transparent cv o d s :
  (o = S754_zero false \/ exists m e, o = S754_finite false m e) ->
  color.A s = x00 -> color.A d <> x00 ->
  blend_pixel cv o d s = d.
Proof.
  intros Ho Hs Hd. destruct (mul_f0_r o Ho) as [H1 H2].
  unfold blend_pixel. rewrite Hs, F_x00.
  rewrite blendCoefs_transparent, blendAlpha_transparent by assumption.
  rewrite !byte_mul_f0, !byte_mul_f1, !byte_add_f0, !uint8_of_byte.
  destruct d; reflexivity.
Qed.


(** * Properties of the functions of tools.go *)

(** A transparent black pixel. *)
Definition clear : color.NRGBA := rgba x00 x00 x00 x00.



(** CropCenter, for a size that fits in the image: the buffer has the size
    asked for and holds the pixels around the centre, the first of them at
    the offset (W/2 - w/2, H/2 - h/2) from the corner of the image. *)
Theorem CropCenter_takes_centre img w h :
  buffer_ok img -> bounds_ok img ->
  0 < w <= Dx (Bounds img) -> 0 < h <= Dy (Bounds img) ->
  exists r,
    CropCenter img w h = Some r /\
    Rect r = {| Min := Pt 0 0; Max := Pt w h |} /\
    forall x y, 0 <= x < w -> 0 <= y < h ->
      NRGBAAt r x y
      = Some (pixel_of img (Dx (Bounds img) / 2 - w / 2 + x)
                           (Dy (Bounds img) / 2 - h / 2 + y)).
Proof.
  intros Hok Hb Hw Hh. unfold CropCenter.
  rewrite CropCenter_rect_fits by (assumption || lia).
  pose proof (half_spec (Dx (Bounds img))). pose proof (half_spec w).
  pose proof (half_spec (Dy (Bounds img))). pose proof (half_spec h).
  apply Crop_within; try assumption; lia.
Qed.

Lemma CropCenter_takes_centre_witness :
  buffer_ok (solid_at 3 10 5 4 red) /\ bounds_ok (solid_at 3 10 5 4 red) /\
  0 < 2 <= Dx (Bounds (solid_at 3 10 5 4 red)) /\
  0 < 3 <= Dy (Bounds (solid_at 3 10 5 4 red)) /\
  exists r,
    CropCenter (solid_at 3 10 5 4 red) 2 3 = Some r /\
    Rect r = {| Min := Pt 0 0; Max := Pt 2 3 |} /\
    forall x y, 0 <= x < 2 -> 0 <= y < 3 ->
      NRGBAAt r x y
      = Some (pixel_of (solid_at 3 10 5 4 red)
                (Dx (Bounds (solid_at 3 10 5 4 red)) / 2 - 2 / 2 + x)
                (Dy (Bounds (solid_at 3 10 5 4 red)) / 2 - 3 / 2 + y)).
Proof.
  split; [vm_compute; intuition discriminate|].
  split; [vm_compute; intuition discriminate|].
  split; [vm_compute; intuition discriminate|].
  split; [vm_compute; intuition discriminate|].
  apply (CropCenter_takes_centre (solid_at 3 10 5 4 red) 2 3);
    vm_compute; intuition discriminate.
Defined.

(** CropTop, for an image whose bounds start at the row 0 and a size that
    fits in it: the buffer has the size asked for and holds the rows at the
    top, centred horizontally. *)
Theorem CropTop_takes_top_rows img w h :
  buffer_ok img -> bounds_ok img -> Y (Min (Bounds img)) = 0 ->
  0 < w <= Dx (Bounds img) -> 0 < h <= Dy (Bounds img) ->
  exists r,
    CropTop img w h = Some r /\
    Rect r = {| Min := Pt 0 0; Max := Pt w h |} /\
    forall x y, 0 <= x < w -> 0 <= y < h ->
      NRGBAAt r x y = Some (pixel_of img (Dx (Bounds img) / 2 - w / 2 + x) y).
Proof.
  intros Hok Hb HY Hw Hh. unfold CropTop.
  pose proof (Dy_in_range (Bounds img)) as RH. range_facts.
  rewrite CropTop_rect_fits by (assumption || rewrite ?max_int_val; lia).
  pose proof (half_spec (Dx (Bounds img))). pose proof (half_spec w).
  destruct (Crop_within img (Dx (Bounds img) / 2 - w / 2) 0 w h)
    as (r & Hrun & HR & Hpix); try assumption; try lia.
  rewrite HY in Hrun. cbn [Z.add] in Hrun.
  exists r. split; [exact Hrun|]. split; [exact HR|].
  intros x y Hx Hy. rewrite (Hpix x y Hx Hy). reflexivity.
Qed.

Lemma CropTop_takes_top_rows_witness :
  buffer_ok (solid_at 3 0 5 4 red) /\ bounds_ok (solid_at 3 0 5 4 red) /\
  Y (Min (Bounds (solid_at 3 0 5 4 red))) = 0 /\
  0 < 2 <= Dx (Bounds (solid_at 3 0 5 4 red)) /\
  0 < 3 <= Dy (Bounds (solid_at 3 0 5 4 red)) /\
  exists r,
    CropTop (solid_at 3 0 5 4 red) 2 3 = Some r /\
    Rect r = {| Min := Pt 0 0; Max := Pt 2 3 |} /\
    forall x y, 0 <= x < 2 -> 0 <= y < 3 ->
      NRGBAAt r x y
      = Some (pixel_of (solid_at 3 0 5 4 red)
                (Dx (Bounds (solid_at 3 0 5 4 red)) / 2 - 2 / 2 + x) y).
Proof.
  split; [vm_compute; intuition discriminate|].
  split; [vm_compute; intuition discriminate|].
  split; [reflexivity|].
  split; [vm_compute; intuition discriminate|].
  split; [vm_compute; intuition discriminate|].
  apply (CropTop_takes_top_rows (solid_at 3 0 5 4 red) 2 3);
    try reflexivity; vm_compute; intuition discriminate.
Defined.

(** CropTop, for an image whose bounds start at the row [h] or below it:
    nothing of the image is in the rectangle, which starts at the row 0,
    and the buffer returned is empty, whatever the width asked for. *)
Theorem CropTop_empty_for_image_below img w h :
  GoInt.in_range (Y (Min (Bounds img))) -> GoInt.in_range h ->
  0 <= Y (Min (Bounds img)) -> h <= Y (Min (Bounds img)) ->
  CropTop img w h = Some {| Pix := []; Stride := 0; Rect := ZR |}.
Proof.
  intros R1 R2 H0 Hh. range_facts.
  unfold CropTop, Crop, SubImage. rewrite Intersect_above.
  - vm_compute. reflexivity.
  - unfold toNRGBA. rewrite Clone_Rect. unfold RSub, PSub.
    cbn [Min Max X Y Pt]. unfold CropTop_rect. cbv zeta. rewrite Rect_Max_Y.
    unfold GoInt.add, GoInt.sub. rewrite (int_wrap_id (0 + h)) by lia.
    rewrite int_wrap_id by lia. lia.
Qed.

Lemma CropTop_empty_for_image_below_witness :
  GoInt.in_range (Y (Min (Bounds (solid_at 0 10 4 4 red)))) /\
  GoInt.in_range 2 /\
  0 <= Y (Min (Bounds (solid_at 0 10 4 4 red))) /\
  2 <= Y (Min (Bounds (solid_at 0 10 4 4 red))) /\
  CropTop (solid_at 0 10 4 4 red) 4 2
  = Some {| Pix := []; Stride := 0; Rect := ZR |}.
Proof.
  split; [vm_compute; intuition discriminate|].
  split; [vm_compute; intuition discriminate|].
  split; [vm_compute; intuition discriminate|].
  split; [vm_compute; intuition discriminate|].
  apply (CropTop_empty_for_image_below (solid_at 0 10 4 4 red) 4 2);
    vm_compute; intuition discriminate.
Defined.

(** PasteCenter: the result has the rectangle of the background's clone;
    its pixels in the rectangle of the image's size around the centre of
    the background are the image's, the others the background's. The
    bounds of the background may start anywhere, and the image may be
    larger than the background. *)
Theorem PasteCenter_pastes_around_centre bg img :
  buffer_ok bg -> buffer_ok img ->
  exists r,
    PasteCenter bg img = Some r /\
    Rect r = Rect (Clone bg) /\
    forall x y, inside x y (Rect (Clone bg)) ->
      (inside x y (centred bg img) ->
       NRGBAAt r x y
       = Some (pixel_of img (x - (Dx (Bounds bg) / 2 - Dx (Bounds img) / 2))
                            (y - (Dy (Bounds bg) / 2 - Dy (Bounds img) / 2)))) /\
      (~ inside x y (centred bg img) ->
       NRGBAAt r x y = Some (pixel_of bg x y)).
Proof.
  intros Hbg Himg.
  destruct (PasteCenter_spec bg img Hbg Himg) as (r & Hrun & HR & Hpix).
  exists r. split; [exact Hrun|]. split; [exact HR|].
  intros x y Hin. rewrite (Hpix x y Hin). split; intros HI.
  - apply PIn_inside in HI. rewrite HI. reflexivity.
  - rewrite <- PIn_inside in HI. apply not_true_is_false in HI.
    rewrite HI. reflexivity.
Qed.

Lemma PasteCenter_pastes_around_centre_witness :
  buffer_ok (solid_at 3 10 5 4 red) /\ buffer_ok (solid 2 2 blue) /\
  exists r,
    PasteCenter (solid_at 3 10 5 4 red) (solid 2 2 blue) = Some r /\
    Rect r = Rect (Clone (solid_at 3 10 5 4 red)) /\
    forall x y, inside x y (Rect (Clone (solid_at 3 10 5 4 red))) ->
      (inside x y (centred (solid_at 3 10 5 4 red) (solid 2 2 blue)) ->
       NRGBAAt r x y
       = Some (pixel_of (solid 2 2 blue)
                 (x - (Dx (Bounds (solid_at 3 10 5 4 red)) / 2
                       - Dx (Bounds (solid 2 2 blue)) / 2))
                 (y - (Dy (Bounds (solid_at 3 10 5 4 red)) / 2
                       - Dy (Bounds (solid 2 2 blue)) / 2)))) /\
      (~ inside x y (centred (solid_at 3 10 5 4 red) (solid 2 2 blue)) ->
       NRGBAAt r x y = Some (pixel_of (solid_at 3 10 5 4 red) x y)).
Proof.
  split; [vm_compute; intuition discriminate|].
  split; [vm_compute; intuition discriminate|].
  apply (PasteCenter_pastes_around_centre (solid_at 3 10 5 4 red) (solid 2 2 blue));
    vm_compute; intuition discriminate.
Defined.

(** CropCenter after PasteCenter gives the image back: for an image that
    fits in the background, cropping its size from the centre of what
    PasteCenter returns gives a buffer with the rectangle and the pixels of
    the image's clone. *)
Theorem CropCenter_of_PasteCenter bg img :
  buffer_ok bg -> buffer_ok img ->
  0 < Dx (Bounds img) <= Dx (Bounds bg) ->
  0 < Dy (Bounds img) <= Dy (Bounds bg) ->
  exists p c,
    PasteCenter bg img = Some p /\
    CropCenter (image_of_NRGBA p) (Dx (Bounds img)) (Dy (Bounds img)) = Some c /\
    Rect c = Rect (Clone img) /\
    forall x y, inside x y (Rect (Clone img)) ->
      NRGBAAt c x y = NRGBAAt (Clone img) x y.
Proof.
  intros Hbg Himg Hw Hh.
  destruct (CropCenter_PasteCenter_spec bg img Hbg Himg Hw Hh)
    as (p & c & Hp & Hc & HR & Hpix).
  exists p, c. split; [exact Hp|]. split; [exact Hc|]. split; [exact HR|].
  intros x y Hin. rewrite (Hpix x y Hin). symmetry.
  apply NRGBAAt_Clone; assumption.
Qed.

Lemma CropCenter_of_PasteCenter_witness :
  buffer_ok (solid_at 3 10 5 4 red) /\ buffer_ok (solid 2 3 blue) /\
  0 < Dx (Bounds (solid 2 3 blue)) <= Dx (Bounds (solid_at 3 10 5 4 red)) /\
  0 < Dy (Bounds (solid 2 3 blue)) <= Dy (Bounds (solid_at 3 10 5 4 red)) /\
  exists p c,
    PasteCenter (solid_at 3 10 5 4 red) (solid 2 3 blue) = Some p /\
    CropCenter (image_of_NRGBA p) (Dx (Bounds (solid 2 3 blue)))
      (Dy (Bounds (solid 2 3 blue))) = Some c /\
    Rect c = Rect (Clone (solid 2 3 blue)) /\
    forall x y, inside x y (Rect (Clone (solid 2 3 blue))) ->
      NRGBAAt c x y = NRGBAAt (Clone (solid 2 3 blue)) x y.
Proof.
  split; [vm_compute; intuition discriminate|].
  split; [vm_compute; intuition discriminate|].
  split; [vm_compute; intuition discriminate|].
  split; [vm_compute; intuition discriminate|].
  apply (CropCenter_of_PasteCenter (solid_at 3 10 5 4 red) (solid 2 3 blue));
    vm_compute; intuition discriminate.
Defined.

(** Overlay, for every opacity, a NaN included, and every conversion of
    out-of-range values: it returns a buffer with the rectangle and the
    stride of the background's clone, in which every pixel outside the
    pasted rectangle is the background's pixel, all four channels. *)
Theorem Overlay_keeps_pixels_outside cv bg img pos opacity :
  buffer_ok bg -> buffer_ok img ->
  exists r,
    Overlay cv bg img pos opacity = Some r /\
    Rect r = Rect (Clone bg) /\ Stride r = Stride (Clone bg) /\
    forall x y, inside x y (Rect (Clone bg)) ->
      ~ inside x y (pasteBounds bg img pos) ->
      NRGBAAt r x y = Some (pixel_of bg x y).
Proof.
  intros Hbg Himg.
  destruct (Overlay_spec cv bg img pos opacity Hbg Himg)
    as (r & Hrun & HR & HS & Hpix).
  exists r. split; [exact Hrun|]. split; [exact HR|]. split; [exact HS|].
  intros x y Hin Hout. rewrite (Hpix x y Hin).
  assert (PIn (Pt x y) (Intersect (Rect (Clone bg)) (pasteBounds bg img pos))
          = false) as ->; [|reflexivity].
  apply not_true_is_false. rewrite PIn_inside, inside_Intersect. tauto.
Qed.

Lemma Overlay_keeps_pixels_outside_witness :
  buffer_ok (solid 4 4 red) /\ buffer_ok (solid 2 2 blue) /\
  exists r,
    Overlay uint8_amd64 (solid 4 4 red) (solid 2 2 blue) (Pt 1 1) S754_nan = Some r /\
    Rect r = Rect (Clone (solid 4 4 red)) /\
    Stride r = Stride (Clone (solid 4 4 red)) /\
    forall x y, inside x y (Rect (Clone (solid 4 4 red))) ->
      ~ inside x y (pasteBounds (solid 4 4 red) (solid 2 2 blue) (Pt 1 1)) ->
      NRGBAAt r x y = Some (pixel_of (solid 4 4 red) x y).
Proof.
  split; [vm_compute; intuition discriminate|].
  split; [vm_compute; intuition discriminate|].
  apply (Overlay_keeps_pixels_outside uint8_amd64 (solid 4 4 red) (solid 2 2 blue)
           (Pt 1 1) S754_nan);
    vm_compute; intuition discriminate.
Defined.



(** Overlay, for an opacity that is not a NaN: where the pixel of the image
    has the alpha 0 and the pixel of the background has not, the pixel of
    the result is the background's, all four channels. *)
Theorem Overlay_transparent_source_keeps_pixel cv bg img pos opacity :
  buffer_ok bg -> buffer_ok img -> F64.is_nan opacity = false ->
  exists r,
    Overlay cv bg img pos opacity = Some r /\
    forall x y,
      inside x y (Intersect (Rect (Clone bg)) (pasteBounds bg img pos)) ->
      color.A (pasted_pixel bg img pos x y) = x00 ->
      color.A (pixel_of bg x y) <> x00 ->
      NRGBAAt r x y = Some (pixel_of bg x y).
Proof.
  intros Hbg Himg Hn.
  destruct (Overlay_spec cv bg img pos opacity Hbg Himg)
    as (r & Hrun & _ & _ & Hpix).
  exists r. split; [exact Hrun|]. intros x y HI Hs Hd.
  pose proof HI as HI'. apply inside_Intersect in HI' as [Hdst _].
  rewrite (Hpix x y Hdst). apply PIn_inside in HI. rewrite HI.
  rewrite blend_pixel_transparent; [reflexivity| |assumption|assumption].
  apply clampOpacity_sign. assumption.
Qed.

Lemma Overlay_transparent_source_keeps_pixel_witness :
  buffer_ok (solid 4 4 red) /\ buffer_ok (solid 2 2 clear) /\
  F64.is_nan half = false /\
  exists r,
    Overlay uint8_amd64 (solid 4 4 red) (solid 2 2 clear) (Pt 1 1) half = Some r /\
    forall x y,
      inside x y (Intersect (Rect (Clone (solid 4 4 red)))
                    (pasteBounds (solid 4 4 red) (solid 2 2 clear) (Pt 1 1))) ->
      color.A (pasted_pixel (solid 4 4 red) (solid 2 2 clear) (Pt 1 1) x y) = x00 ->
      color.A (pixel_of (solid 4 4 red) x y) <> x00 ->
      NRGBAAt r x y = Some (pixel_of (solid 4 4 red) x y).
Proof.
  split; [vm_compute; intuition discriminate|].
  split; [vm_compute; intuition discriminate|].
  split; [vm_compute; reflexivity|].
  apply (Overlay_transparent_source_keeps_pixel uint8_amd64 (solid 4 4 red)
           (solid 2 2 clear) (Pt 1 1) half).
  - vm_compute; intuition discriminate.
  - vm_compute; intuition discriminate.
  - vm_compute; reflexivity.
Defined.

(** * The size of the buffer *)






Section OverlayLength.

Variable cv : float64 -> byte.




End OverlayLength.




